(** * Plist.parse_xml: the stream parser of lib/plist/parser.ts

    The source file is the Ruby property-list parser written partly in
    TypeScript syntax.  The development follows the program text method by
    method with the meaning its operations have in Ruby ([push], [pop],
    [last], [to_i], [CGI.unescapeHTML], [StringScanner#scan], ...).

    Text is a [string]: a sequence of 8-bit characters.  Case folding of
    the [/i] patterns is the folding of the ASCII letters.  The argument
    of [Plist.parse_xml] is a stream or a text; the constructor of
    [StreamParser] reads the stream, and takes the text for the name of
    a file when such a file exists ([StreamParser_new],
    [Plist_parse_xml]); [parse_xml] is the parse of the text that the
    constructor keeps in [@xml].  A declared encoding that the platform
    knows is put on the text left, and the scan of that text can raise
    under it ([force_encoding]).

    Layout: the program ([Platform], registry, nodes, [to_ruby], the
    patterns, [Listener], [parse], [parse_xml]); the notions used in the
    statements; a reference platform to run the program on; then the
    lemmas and the theorems on the claims C1 to C10, and the further
    properties X1 to X22 of the parser and of the conversions. *)

From Stdlib Require Import String Ascii List ZArith Bool Arith Lia.
Import ListNotations.
Local Open Scope string_scope.
Local Open Scope list_scope.

Set Implicit Arguments.
Set Warnings "-register-all".

(* ================================================================== *)
(** ** Characters and text *)

Definition is_space (c : ascii) : bool :=
  let n := nat_of_ascii c in ((n =? 32) || ((9 <=? n) && (n <=? 13)))%nat.

Definition is_digit (c : ascii) : bool :=
  let n := nat_of_ascii c in ((48 <=? n) && (n <=? 57))%nat.


Definition downcase_char (c : ascii) : ascii :=
  let n := nat_of_ascii c in
  if ((65 <=? n) && (n <=? 90))%nat then ascii_of_nat (n + 32) else c.

Fixpoint downcase (s : string) : string :=
  match s with
  | EmptyString => EmptyString
  | String c s' => String (downcase_char c) (downcase s')
  end.

Definition newline : ascii := ascii_of_nat 10.

Definition double_quote : ascii := ascii_of_nat 34.

(** [drop_prefix p s]: the rest of [s] after the literal [p], when [s]
    starts with [p]. *)
Fixpoint drop_prefix (p s : string) : option string :=
  match p with
  | EmptyString => Some s
  | String a p' =>
      match s with
      | String b s' => if Ascii.eqb a b then drop_prefix p' s' else None
      | EmptyString => None
      end
  end.

(** The same up to letter case; the text really matched is returned too. *)
Fixpoint drop_prefix_i (p s : string) : option (string * string) :=
  match p with
  | EmptyString => Some (EmptyString, s)
  | String a p' =>
      match s with
      | String b s' =>
          if Ascii.eqb (downcase_char a) (downcase_char b)
          then match drop_prefix_i p' s' with
               | Some (m, r) => Some (String b m, r)
               | None => None
               end
          else None
      | EmptyString => None
      end
  end.

(** Longest prefix of characters satisfying [f], and what follows it. *)
Fixpoint span (f : ascii -> bool) (s : string) : string * string :=
  match s with
  | EmptyString => (EmptyString, EmptyString)
  | String c s' =>
      if f c then let (a, b) := span f s' in (String c a, b)
      else (EmptyString, s)
  end.

(** [split_at f s]: the text before the first character satisfying [f],
    that character, and the text after it. *)
Fixpoint split_at (f : ascii -> bool) (s : string)
  : option (string * ascii * string) :=
  match s with
  | EmptyString => None
  | String c s' =>
      if f c then Some (EmptyString, c, s')
      else match split_at f s' with
           | Some (a, d, b) => Some (String c a, d, b)
           | None => None
           end
  end.

(** [after_first p s]: the text after the first occurrence of [p] in [s]. *)
Fixpoint after_first (p s : string) : option string :=
  match drop_prefix p s with
  | Some r => Some r
  | None =>
      match s with
      | EmptyString => None
      | String _ s' => after_first p s'
      end
  end.

Fixpoint contains (f : ascii -> bool) (s : string) : bool :=
  match s with
  | EmptyString => false
  | String c s' => f c || contains f s'
  end.

(** [text.gsub(/\s+/, '')] *)
Fixpoint gsub_space (s : string) : string :=
  match s with
  | EmptyString => EmptyString
  | String c s' => if is_space c then gsub_space s' else String c (gsub_space s')
  end.

(* ================================================================== *)
(** ** Exceptions and completions *)

(** The exceptions of the program and of the library calls it makes;
    [CompatibilityError] is [Encoding::CompatibilityError], and
    [SystemCallError] stands for the [Errno] errors of [File.read]. *)
Inductive exception : Type :=
| RuntimeError (msg : string)
| NoMethodError (receiver method : string)
| TypeError (msg : string)
| ArgumentError (msg : string)
| CompatibilityError (msg : string)
| SystemCallError (msg : string).

(** How a call ends: it returns a value or raises. *)
Inductive completion (A : Type) : Type :=
| Return (a : A)
| Raise (e : exception).

Arguments Return {A} a.
Arguments Raise {A} e.

Definition bind {A B : Type} (c : completion A) (k : A -> completion B)
  : completion B :=
  match c with
  | Return a => k a
  | Raise e => Raise e
  end.

Notation "x <- c ;; k" := (bind c (fun x => k))
  (at level 61, c at next level, right associativity).

(* ================================================================== *)
(** ** Values *)

(** A [StringIO]: its buffer and its position. *)
Record StringIO : Type := { io_string : string; io_pos : nat }.

Section Values.

Variables Float DateTime Object : Type.

(** What [to_ruby] can return.  A hash keeps its entries in insertion
    order. *)
Inductive value : Type :=
| VNil
| VBool (b : bool)
| VInt (z : Z)
| VFloat (f : Float)
| VStr (s : string)
| VArray (items : list value)
| VHash (entries : list (value * value))
| VDateTime (d : DateTime)
| VStringIO (io : StringIO)
| VObject (o : Object).

End Values.

Arguments VNil {Float DateTime Object}.
Arguments VBool {Float DateTime Object} b.
Arguments VInt {Float DateTime Object} z.
Arguments VFloat {Float DateTime Object} f.
Arguments VStr {Float DateTime Object} s.
Arguments VArray {Float DateTime Object} items.
Arguments VHash {Float DateTime Object} entries.
Arguments VDateTime {Float DateTime Object} d.
Arguments VStringIO {Float DateTime Object} io.
Arguments VObject {Float DateTime Object} o.

(* ================================================================== *)
(** ** The platform

    The library calls of the program whose algorithms are not part of
    the repository, with the facts about them that the development uses. *)

Class Platform : Type := {
  Float : Type;
  DateTime : Type;
  Object : Type;
  (** [String#to_i]; never raises. *)
  String_to_i : string -> Z;
  (** [String#to_f] and [nil.to_f]; never raise. *)
  String_to_f : string -> Float;
  Nil_to_f : Float;
  (** [CGI.unescapeHTML] *)
  CGI_unescapeHTML : string -> string;
  (** [DateTime.parse] on a string; [None] when it raises. *)
  DateTime_parse : string -> option DateTime;
  (** [Base64.decode64] *)
  Base64_decode64 : string -> string;
  (** [Marshal.load] on a string; [None] when it raises. *)
  Marshal_load : string -> option (value Float DateTime Object);
  (** Key equality of [Hash] ([eql?]). *)
  eql : value Float DateTime Object -> value Float DateTime Object -> bool;
  (** [Encoding.find]: on [None] (a [nil] argument) and on a name. *)
  Encoding : Type;
  Encoding_find : option string -> completion Encoding;
  (** What a scan of a text raises once the text bears the encoding: an
      [Encoding::CompatibilityError] for an encoding that is not
      ASCII-compatible, an [ArgumentError] for bytes that are not valid
      in it.  [None] when the scan reads the text as its characters. *)
  Encoding_scan_error : Encoding -> string -> option exception;
  (** [File.exist?] and [File.read] on a name: [None] when no file of
      that name exists, else what reading it returns or raises. *)
  File_read : string -> option (completion string);
  (** A text without a digit holds no number. *)
  String_to_i_no_digit :
    forall s, contains is_digit s = false -> String_to_i s = 0%Z;
  CGI_unescapeHTML_empty : CGI_unescapeHTML "" = "";
  eql_VStr : forall a b, eql (VStr a) (VStr b) = String.eqb a b
}.

Definition Value {P : Platform} : Type := value Float DateTime Object.

(* ================================================================== *)
(** ** Insertion-ordered hashes

    [h[k] = v]: an entry whose key equals [k] keeps its place and takes
    the new value; otherwise the entry is added at the end. *)

Section Hash.

Variables K V : Type.
Variable eq : K -> K -> bool.

Fixpoint store (h : list (K * V)) (k : K) (v : V) : list (K * V) :=
  match h with
  | [] => [(k, v)]
  | (k', v') :: r =>
      if eq k' k then (k', v) :: r else (k', v') :: store r k v
  end.

Fixpoint fetch (h : list (K * V)) (k : K) : option V :=
  match h with
  | [] => None
  | (k', v') :: r => if eq k' k then Some v' else fetch r k
  end.

End Hash.

(* ================================================================== *)
(** ** The tag registry: [PTag.mappings] and [PTag.inherited] *)

(** The subclasses of [PTag], in the order of their declaration. *)
Inductive klass : Type :=
| PList | PDict | PKey | PString | PArray | PInteger
| PTrue | PFalse | PReal | PDate | PData.

(** The name of a class, inside the namespace [Plist]. *)
Definition class_name (c : klass) : string :=
  match c with
  | PList => "Plist::PList"
  | PDict => "Plist::PDict"
  | PKey => "Plist::PKey"
  | PString => "Plist::PString"
  | PArray => "Plist::PArray"
  | PInteger => "Plist::PInteger"
  | PTrue => "Plist::PTrue"
  | PFalse => "Plist::PFalse"
  | PReal => "Plist::PReal"
  | PDate => "Plist::PDate"
  | PData => "Plist::PData"
  end.

(** [key.gsub!(/^p/, '')] on a one-line key: the prefix goes, if there. *)
Definition gsub_prefix (p key : string) : string :=
  match drop_prefix p key with
  | Some r => r
  | None => key
  end.

Definition inherited (mappings : list (string * klass)) (sub_class : klass)
  : list (string * klass) :=
  let key := downcase (class_name sub_class) in
  let key := gsub_prefix "plist::" key in
  let key := if String.eqb key "plist" then key else gsub_prefix "p" key in
  store String.eqb mappings key sub_class.

Definition PTag_mappings : list (string * klass) :=
  fold_left inherited
    [PList; PDict; PKey; PString; PArray; PInteger;
     PTrue; PFalse; PReal; PDate; PData] [].

Definition mappings_keys : list string := map fst PTag_mappings.

(* ================================================================== *)
(** ** Nodes *)

(** An instance of a subclass of [PTag]: its class, its [text] ([None]
    until it is assigned) and its [children]. *)
Inductive PTag : Type :=
| Node (cls : klass) (text : option string) (children : list PTag).

Definition class_of (n : PTag) : klass :=
  match n with Node c _ _ => c end.

Definition text (n : PTag) : option string :=
  match n with Node _ t _ => t end.

Definition children (n : PTag) : list PTag :=
  match n with Node _ _ cs => cs end.

(** The constructor of [PTag]: [children = []], [text] not set. *)
Definition PTag_new (c : klass) : PTag := Node c None [].

(** [n.text = contents] *)
Definition set_text (contents : string) (n : PTag) : PTag :=
  Node (class_of n) (Some contents) (children n).

(** [n.children.push(c)] *)
Definition push_child (c : PTag) (n : PTag) : PTag :=
  Node (class_of n) (text n) (children n ++ [c]).

(* ================================================================== *)
(** ** StringIO *)

Definition StringIO_new : StringIO := {| io_string := ""; io_pos := 0 |}.

Fixpoint nul_pad (n : nat) : string :=
  match n with
  | 0 => ""
  | S n' => String zero (nul_pad n')
  end.

(** [io.write s]: the text goes into the buffer at the position, over
    what is there, and the position moves past it. *)
Definition StringIO_write (io : StringIO) (s : string) : StringIO :=
  if (String.length s =? 0)%nat then io
  else
    let buf := io_string io in
    let pos := io_pos io in
    let before := substring 0 pos buf in
    let pad := nul_pad (pos - String.length buf) in
    let stop := pos + String.length s in
    let after := substring stop (String.length buf - stop) buf in
    {| io_string := before ++ pad ++ s ++ after; io_pos := stop |}.

Definition StringIO_rewind (io : StringIO) : StringIO :=
  {| io_string := io_string io; io_pos := 0 |}.

(* ================================================================== *)
(** ** Conversion: the [to_ruby] methods *)

Section Conversion.

Context {P : Platform}.

Definition is_nil (v : Value) : bool :=
  match v with VNil => true | _ => false end.

(** [dict[key] = v] *)
Definition Hash_store (dict : list (Value * Value)) (key v : Value)
  : list (Value * Value) :=
  store eql dict key v.

Section Methods.

(** The [to_ruby] that the children answer to. *)
Variable to_ruby : PTag -> completion Value.

Definition PList_to_ruby (children : list PTag) : completion Value :=
  match children with
  | c :: _ => to_ruby c
  | [] => Return VNil
  end.

(** The loop [children.each do |c| ... end] of [PDict#to_ruby], from the
    state [dict], [key]. *)
Fixpoint PDict_each (children : list PTag) (dict : list (Value * Value))
  (key : Value) : completion (list (Value * Value)) :=
  match children with
  | [] => Return dict
  | c :: rest =>
      if is_nil key
      then key' <- to_ruby c ;; PDict_each rest dict key'
      else v <- to_ruby c ;; PDict_each rest (Hash_store dict key v) VNil
  end.

Definition PDict_to_ruby (children : list PTag) : completion Value :=
  dict <- PDict_each children [] VNil ;; Return (VHash dict).

(** [children.collect do |c| c.to_ruby end] *)
Fixpoint collect (children : list PTag) : completion (list Value) :=
  match children with
  | [] => Return []
  | c :: rest => v <- to_ruby c ;; vs <- collect rest ;; Return (v :: vs)
  end.

Definition PArray_to_ruby (children : list PTag) : completion Value :=
  vs <- collect children ;; Return (VArray vs).

End Methods.

(** [text || ''] *)
Definition text_or_empty (text : option string) : string :=
  match text with
  | Some t => t
  | None => ""
  end.

Definition PKey_to_ruby (text : option string) : completion Value :=
  Return (VStr (CGI_unescapeHTML (text_or_empty text))).

Definition PString_to_ruby (text : option string) : completion Value :=
  Return (VStr (CGI_unescapeHTML (text_or_empty text))).

(** [text.to_i]; [nil.to_i] is 0. *)
Definition PInteger_to_ruby (text : option string) : completion Value :=
  match text with
  | Some t => Return (VInt (String_to_i t))
  | None => Return (VInt 0)
  end.

(** [text.to_f]; [nil.to_f] is 0.0. *)
Definition PReal_to_ruby (text : option string) : completion Value :=
  match text with
  | Some t => Return (VFloat (String_to_f t))
  | None => Return (VFloat Nil_to_f)
  end.

(** [DateTime.parse(text)] *)
Definition PDate_to_ruby (text : option string) : completion Value :=
  match text with
  | None => Raise (TypeError "no implicit conversion of nil into String")
  | Some t =>
      match DateTime_parse t with
      | Some d => Return (VDateTime d)
      | None => Raise (ArgumentError "invalid date")
      end
  end.

(** [data]: the decoded text, [None] ([nil]) when the text is not set. *)
Definition PData_decoded (text : option string) : option string :=
  match text with
  | Some t => Some (Base64_decode64 (gsub_space t))
  | None => None
  end.

(** [Marshal.load(data)]; on [nil] it raises. *)
Definition PData_load (data : option string) : option Value :=
  match data with
  | Some d => Marshal_load d
  | None => None
  end.

(** [io.write data]; [nil] is written as the empty text. *)
Definition PData_buffer (data : option string) : StringIO :=
  let io := StringIO_new in
  let io := StringIO_write io (text_or_empty data) in
  StringIO_rewind io.

Definition PData_to_ruby (text : option string) : completion Value :=
  let data := PData_decoded text in
  match PData_load data with
  | Some v => Return v
  | None => Return (VStringIO (PData_buffer data))
  end.

(** [n.to_ruby], by the class of [n]. *)
Fixpoint to_ruby (n : PTag) : completion Value :=
  match n with
  | Node PList _ children => PList_to_ruby to_ruby children
  | Node PDict _ children => PDict_to_ruby to_ruby children
  | Node PKey text _ => PKey_to_ruby text
  | Node PString text _ => PString_to_ruby text
  | Node PArray _ children => PArray_to_ruby to_ruby children
  | Node PInteger text _ => PInteger_to_ruby text
  | Node PTrue _ _ => Return (VBool true)
  | Node PFalse _ _ => Return (VBool false)
  | Node PReal text _ => PReal_to_ruby text
  | Node PDate text _ => PDate_to_ruby text
  | Node PData text _ => PData_to_ruby text
  end.

End Conversion.

(* ================================================================== *)
(** ** The patterns of [StreamParser]

    [@scanner.scan(p)] matches [p] at the scan position only.  Each
    function below is one pattern: from the text at the position it gives
    the groups that the program reads and the text after the match, or
    [None] when the pattern does not match there. *)

(** [COMMENT_START = /\A<!--/] *)
Definition COMMENT_START (s : string) : option string :=
  drop_prefix "<!--" s.

(** [COMMENT_END = /.*?-->/m] *)
Definition COMMENT_END (s : string) : option string :=
  after_first "-->" s.

(** [XMLDECL_PATTERN = /<\?xml\s+(.*?)\?>*/m]: group 1 and the rest. *)
Definition XMLDECL_PATTERN (s : string) : option (string * string) :=
  match drop_prefix "<?xml" s with
  | None => None
  | Some s1 =>
      match span is_space s1 with
      | (EmptyString, _) => None
      | (_, s2) =>
          match split_at (Ascii.eqb "?") s2 with
          | None => None
          | Some (group1, _, s3) => Some (group1, snd (span (Ascii.eqb ">") s3))
          end
      end
  end.

(** [DOCTYPE_PATTERN = /\s*<!DOCTYPE\s+(.*?)(\[|>)/m] *)
Definition DOCTYPE_PATTERN (s : string) : option string :=
  match drop_prefix "<!DOCTYPE" (snd (span is_space s)) with
  | None => None
  | Some s1 =>
      match span is_space s1 with
      | (EmptyString, _) => None
      | (_, s2) =>
          match split_at (fun c => Ascii.eqb c "[" || Ascii.eqb c ">") s2 with
          | None => None
          | Some (_, _, s3) => Some s3
          end
      end
  end.

(** The group [(plist|dict|...)] under [/i], followed by the pattern [k]:
    the alternatives are tried in order, and an alternative whose
    continuation fails gives way to the next. *)
Fixpoint alternation (A : Type) (names : list string) (s : string)
  (k : string -> string -> option A) : option A :=
  match names with
  | [] => None
  | n :: names' =>
      match drop_prefix_i n s with
      | Some (m, r) =>
          match k m r with
          | Some a => Some a
          | None => alternation names' s k
          end
      | None => alternation names' s k
      end
  end.

(** The tail of the tag patterns, a group [[^>]*] and then [>]: the text
    up to the first [>] and the text after that [>]. *)
Definition up_to_gt (s : string) : option (string * string) :=
  match split_at (Ascii.eqb ">") s with
  | Some (g, _, r) => Some (g, r)
  | None => None
  end.

(** [start_tag], under [/i]: [<], group 1 [(#{plist_tags})], group 2
    [[^>]*] and [>].  Groups 1 and 2 and the rest. *)
Definition start_tag (plist_tags : list string) (s : string)
  : option (string * string * string) :=
  match drop_prefix "<" s with
  | None => None
  | Some s1 =>
      alternation plist_tags s1 (fun group1 r =>
        match up_to_gt r with
        | Some (group2, rest) => Some (group1, group2, rest)
        | None => None
        end)
  end.

(** [end_tag = /<\/(#{plist_tags})[^>]*>/i]: group 1 and the rest. *)
Definition end_tag (plist_tags : list string) (s : string)
  : option (string * string) :=
  match drop_prefix "</" s with
  | None => None
  | Some s1 =>
      alternation plist_tags s1 (fun group1 r =>
        match up_to_gt r with
        | Some (_, rest) => Some (group1, rest)
        | None => None
        end)
  end.

(** [TEXT = /([^<]+)/] *)
Definition TEXT (s : string) : option (string * string) :=
  match span (fun c => negb (Ascii.eqb c "<")) s with
  | (EmptyString, _) => None
  | (group1, rest) => Some (group1, rest)
  end.

(** [group2 =~ /\/$/]: a slash at the end of the text or of one of its
    lines. *)
Fixpoint slash_at_eol (s : string) : bool :=
  match s with
  | EmptyString => false
  | String c s' =>
      (Ascii.eqb c "/" &&
       match s' with
       | EmptyString => true
       | String d _ => Ascii.eqb d newline
       end)
      || slash_at_eol s'
  end.

(** The pattern of [parse_encoding_from_xml_declaration],
    [/(?:\A|\s)encoding=(?:"(.*?)"|'(.*?)')(?:\s|\Z)/], searched in the
    declaration.  [None]: no match.  [Some g]: a match with group 1 [g],
    which is [None] ([nil]) when the name was in single quotes. *)

(** [(?:\s|\Z)] *)
Definition space_or_Z (s : string) : bool :=
  match s with
  | EmptyString => true
  | String c _ => is_space c
  end.

(** [(.*?)q(?:\s|\Z)] after the opening quote [q]; [.] is not a newline. *)
Fixpoint quoted (q : ascii) (s : string) : option string :=
  match s with
  | EmptyString => None
  | String c s' =>
      if Ascii.eqb c q && space_or_Z s' then Some EmptyString
      else if Ascii.eqb c newline then None
      else match quoted q s' with
           | Some g => Some (String c g)
           | None => None
           end
  end.

(** [encoding=(?:"(.*?)"|'(.*?)')(?:\s|\Z)] at a position. *)
Definition encoding_attribute (s : string) : option (option string) :=
  match drop_prefix "encoding=" s with
  | Some (String q s') =>
      if Ascii.eqb q double_quote then
        match quoted q s' with
        | Some g => Some (Some g)
        | None => None
        end
      else if Ascii.eqb q "'" then
        match quoted q s' with
        | Some _ => Some None
        | None => None
        end
      else None
  | _ => None
  end.

(** The leftmost match; [at_start] holds at the first position, where
    [\A] matches. *)
Fixpoint match_encoding (at_start : bool) (s : string)
  : option (option string) :=
  match (if at_start then encoding_attribute s else None) with
  | Some g => Some g
  | None =>
      match s with
      | EmptyString => None
      | String c s' =>
          match (if is_space c then encoding_attribute s' else None) with
          | Some g => Some g
          | None => match_encoding false s'
          end
      end
  end.

(* ================================================================== *)
(** ** Arrays used as stacks *)

(** [a.pop]: the array without its last element, and that element;
    [None] when the array is empty (then [pop] gives [nil]). *)
Fixpoint pop (A : Type) (a : list A) : option (list A * A) :=
  match a with
  | [] => None
  | x :: r =>
      match pop r with
      | None => Some ([], x)
      | Some (r', y) => Some (x :: r', y)
      end
  end.

(** An update of [a.last] in place. *)
Fixpoint update_last (A : Type) (f : A -> A) (a : list A) : list A :=
  match a with
  | [] => []
  | x :: r =>
      match r with
      | [] => [f x]
      | _ :: _ => x :: update_last f r
      end
  end.

(* ================================================================== *)
(** ** The listener and the parser *)

Section Parser.

Context {P : Platform}.

Record Listener : Type := { result : Value; open : list PTag }.

Definition Listener_new : Listener := {| result := VNil; open := [] |}.

(** [this.open.push(new (PTag.mappings[name])())]; a name that is no key
    of the registry gives [nil], and [new] on it raises. *)
Definition tag_start (l : Listener) (name : string) : completion Listener :=
  match fetch String.eqb PTag_mappings name with
  | Some c => Return {| result := result l; open := open l ++ [PTag_new c] |}
  | None => Raise (NoMethodError "nil" "new")
  end.

(** [if (this.open.length > 0) { this.open.last.text = contents; }] *)
Definition Listener_text (l : Listener) (contents : string) : Listener :=
  if (0 <? length (open l))%nat
  then {| result := result l; open := update_last (set_text contents) (open l) |}
  else l.

(** [last = this.open.pop()], then [this.result = last.to_ruby] when the
    stack is empty, [this.open.last.children.push(last)] otherwise.  On an
    empty stack [pop] gives [nil], the stack is empty, and [nil.to_ruby]
    raises.  The [name] is not looked at. *)
Definition tag_end (l : Listener) (name : string) : completion Listener :=
  match pop (open l) with
  | None => Raise (NoMethodError "nil" "to_ruby")
  | Some (rest, last) =>
      if (length rest =? 0)%nat
      then v <- to_ruby last ;; Return {| result := v; open := rest |}
      else Return {| result := result l;
                     open := update_last (push_child last) rest |}
  end.

(** [parse_encoding_from_xml_declaration], on a platform that defines
    [Encoding]: [Encoding.find] on group 1 of the match; an
    [ArgumentError] of it is rescued, any other exception goes on. *)
Definition parse_encoding_from_xml_declaration (xml_declaration : string)
  : completion (option Encoding) :=
  match match_encoding true xml_declaration with
  | None => Return None
  | Some group1 =>
      match Encoding_find group1 with
      | Return e => Return (Some e)
      | Raise (ArgumentError _) => Return None
      | Raise e => Raise e
      end
  end.

(** What [Plist.parse_xml] is called on: an object that responds to
    [read], given by what its [read] returns or raises, or a text. *)
Inductive input : Type :=
| IO (read : completion string)
| Text (s : string).

(** [@scanner.string = @scanner.rest.force_encoding(encoding)]: the
    text left keeps its bytes and bears the encoding from now on.  When
    text is left, the loop scans it next, and that scan raises when the
    encoding is not ASCII-compatible or the bytes are not valid in it:
    the parse ends there, before any other event.  At the end of the
    text no scan follows.  [String] has the method [force_encoding]. *)
Definition force_encoding (rest : string) (encoding : Encoding)
  : completion string :=
  match rest with
  | EmptyString => Return rest
  | String _ _ =>
      match Encoding_scan_error encoding rest with
      | Some e => Raise e
      | None => Return rest
      end
  end.

(** One turn of the loop [until @scanner.eos?] of [StreamParser#parse],
    at the text [s] left to scan: the listener and the text left after
    it. *)
Definition parse_turn (l : Listener) (s : string)
  : completion (Listener * string) :=
  let plist_tags := mappings_keys in
  match COMMENT_START s with
  | Some s1 =>
      match COMMENT_END s1 with
      | Some s2 => Return (l, s2)
      | None => Return (l, s1)
      end
  | None =>
  match XMLDECL_PATTERN s with
  | Some (group1, s1) =>
      encoding <- parse_encoding_from_xml_declaration group1 ;;
      match encoding with
      | None => Return (l, s1)
      | Some e => s2 <- force_encoding s1 e ;; Return (l, s2)
      end
  | None =>
  match DOCTYPE_PATTERN s with
  | Some s1 => Return (l, s1)
  | None =>
  match start_tag plist_tags s with
  | Some (group1, group2, s1) =>
      l1 <- tag_start l group1 ;;
      if slash_at_eol group2
      then l2 <- tag_end l1 group1 ;; Return (l2, s1)
      else Return (l1, s1)
  | None =>
  match TEXT s with
  | Some (group1, s1) => Return (Listener_text l group1, s1)
  | None =>
  match end_tag plist_tags s with
  | Some (group1, s1) => l1 <- tag_end l group1 ;; Return (l1, s1)
  | None => Raise (RuntimeError "Unimplemented element")
  end end end end end end.

(** The loop, for at most [fuel] turns; [None] when they do not suffice. *)
Fixpoint parse_loop (fuel : nat) (l : Listener) (s : string)
  : option (completion Listener) :=
  match s with
  | EmptyString => Some (Return l)
  | String _ _ =>
      match fuel with
      | 0 => None
      | S fuel' =>
          match parse_turn l s with
          | Raise e => Some (Raise e)
          | Return (l', s') => parse_loop fuel' l' s'
          end
      end
  end.

(** [StreamParser#parse] on the text [xml] with the listener [l]: every
    turn takes at least one character, and the loop gets one turn for
    each character of the text. *)
Definition parse (xml : string) (l : Listener) : option (completion Listener) :=
  parse_loop (String.length xml) l xml.

(** [Plist.parse_xml] from the text [@xml] on: a new listener, the
    parse, and then [listener.result], whatever the stack of the listener
    holds. *)
Definition parse_xml (filename_or_xml : string) : option (completion Value) :=
  match parse filename_or_xml Listener_new with
  | Some (Return listener) => Some (Return (result listener))
  | Some (Raise e) => Some (Raise e)
  | None => None
  end.

(** The constructor of [StreamParser]: [@xml] is what [read] gives for
    an argument that responds to it; for a text, which does not, it is
    the content of the file of that name when [File.exist?] finds one,
    and the text itself otherwise. *)
Definition StreamParser_new (plist_data_or_file : input) : completion string :=
  match plist_data_or_file with
  | IO read => read
  | Text s =>
      match File_read s with
      | Some content => content
      | None => Return s
      end
  end.

(** [Plist.parse_xml] on its argument: the constructor, then the parse
    of [@xml]. *)
Definition Plist_parse_xml (filename_or_xml : input)
  : option (completion Value) :=
  match StreamParser_new filename_or_xml with
  | Return xml => parse_xml xml
  | Raise e => Some (Raise e)
  end.

(** The scan gets from one state of the loop (listener, text left) to
    another in some number of turns, none of which raises. *)
Inductive reaches : Listener * string -> Listener * string -> Prop :=
| reaches_here (st : Listener * string) : reaches st st
| reaches_turn (l : Listener) (c : ascii) (s : string)
    (st1 st : Listener * string) :
    parse_turn l (String c s) = Return st1 ->
    reaches st1 st ->
    reaches (l, String c s) st.

End Parser.

(* ================================================================== *)
(** ** Notions used in the statements *)

(** A text that holds no digit, or a text that was never set. *)
Definition non_numeric (t : option string) : bool :=
  match t with
  | Some s => negb (contains is_digit s)
  | None => true
  end.

(** The children of a [dict] that are pairs of a key and a value. *)
Fixpoint alternate (pairs : list (PTag * PTag)) : list PTag :=
  match pairs with
  | [] => []
  | (k, v) :: r => k :: v :: alternate r
  end.

(** The string that a [key] node converts to. *)
Definition key_string {P : Platform} (k : PTag) : string :=
  CGI_unescapeHTML (text_or_empty (text k)).

(** A hash with string keys, as a hash of values. *)
Definition lift {P : Platform} (d : list (string * Value))
  : list (Value * Value) :=
  map (fun e => (VStr (fst e), snd e)) d.

(** [d[k] = v] for an entry [(k, v)] with a string key. *)
Definition put (V : Type) (d : list (string * V)) (e : string * V)
  : list (string * V) :=
  store String.eqb d (fst e) (snd e).

Definition has_key (ks : list string) (k : string) : bool :=
  existsb (fun k' => String.eqb k' k) ks.

(** The keys in the order in which each is met first. *)
Fixpoint first_occurrences (ks : list string) : list string :=
  match ks with
  | [] => []
  | k :: r => k :: filter (fun k' => negb (String.eqb k k')) (first_occurrences r)
  end.

(** The value that goes with the last entry of key [k]. *)
Definition last_value (V : Type) (entries : list (string * V)) (k : string)
  : option V :=
  fetch String.eqb (rev entries) k.




(* ================================================================== *)
(** ** Documents as they are written *)

(** The key under which [inherited] stores a class. *)
Definition tag_of (c : klass) : string :=
  let key := downcase (class_name c) in
  let key := gsub_prefix "plist::" key in
  if String.eqb key "plist" then key else gsub_prefix "p" key.

(** An element as it is written: its class, the elements inside it, each
    with the text that stands before it, and the text before its end
    tag.  An empty text is no text. *)
Inductive markup : Type :=
| Element (c : klass) (content : list (string * markup)) (tail : string).

Section Render.

Variable render : markup -> string.

Fixpoint render_content (content : list (string * markup)) : string :=
  match content with
  | [] => EmptyString
  | (t, m) :: r => (t ++ render m ++ render_content r)%string
  end.

End Render.

(** The text of the element: start tag, content, end tag. *)
Fixpoint render (m : markup) : string :=
  match m with
  | Element c content tail =>
      ("<" ++ tag_of c ++ ">" ++ render_content render content
       ++ tail ++ "</" ++ tag_of c ++ ">")%string
  end.

(** The text of a node after a run of text [s] was met. *)
Definition text_after (t : option string) (s : string) : option string :=
  match s with
  | EmptyString => t
  | String _ _ => Some s
  end.

(** The node that the element stands for: its text is the last text
    written in it, its children are the nodes of its elements. *)
Fixpoint built (m : markup) : PTag :=
  match m with
  | Element c content tail =>
      Node c (text_after (fold_left text_after (map fst content) None) tail)
        (map (fun p => built (snd p)) content)
  end.

(** A text without [<]. *)
Definition no_lt (s : string) : bool :=
  negb (contains (fun c => Ascii.eqb c "<") s).

(** No text of the element holds a [<]. *)
Fixpoint plain (m : markup) : bool :=
  match m with
  | Element _ content tail =>
      forallb (fun p => no_lt (fst p) && plain (snd p)) content && no_lt tail
  end.

(** Every character of the text satisfies [f]. *)
Fixpoint all_chars (f : ascii -> bool) (s : string) : bool :=
  match s with
  | EmptyString => true
  | String c s' => f c && all_chars f s'
  end.

(** What follows a run of characters of [f]: nothing, or a character
    that is not of [f]. *)
Definition stops (f : ascii -> bool) (r : string) : bool :=
  match r with
  | EmptyString => true
  | String c _ => negb (f c)
  end.

(** What follows a text between tags: nothing, or a [<] that opens no
    declaration. *)
Definition text_stop (r : string) : bool :=
  match r with
  | EmptyString => true
  | String a r' =>
      Ascii.eqb a "<" &&
      match r' with
      | EmptyString => true
      | String c _ => negb (Ascii.eqb c "!")
      end
  end.

(** How the parse goes on after a call that returns a listener. *)
Definition and_then {P : Platform} (c : completion Listener) (rest : string)
  : option (completion Listener) :=
  match c with
  | Return l => parse rest l
  | Raise e => Some (Raise e)
  end.

(** The text starts with a character of [f]. *)
Definition starts_with (f : ascii -> bool) (s : string) : bool :=
  match s with
  | EmptyString => false
  | String c _ => f c
  end.

(** The characters that end the pattern of the document type. *)
Definition ends_doctype (c : ascii) : bool :=
  Ascii.eqb c "[" || Ascii.eqb c ">".

(* ================================================================== *)
(** ** A reference platform

    An instance of [Platform] on which the program runs inside Rocq.  It
    follows the documented behaviour of the library calls on ASCII text:
    [to_i] reads white space, a sign, the radix mark [0d] and digits with
    single underscores between them; [CGI.unescapeHTML] replaces the five
    named entities and the numeric references below 128; Base64 decodes
    the characters of its alphabet before the padding.  Floats stay the
    text they are read from; [DateTime.parse] knows the timestamps of
    property lists ([2001-02-03T04:05:06Z]) and no other format;
    [Marshal.load] checks the version header and keeps the payload as it
    is; UTF-16 is no ASCII-compatible encoding, US-ASCII and UTF-8 have
    their valid texts; no file exists.  The theorems on the claims hold on
    every platform; this one serves to run the program on examples. *)

Module Reference.

(** *** [String#to_i] *)

Definition digit_value (c : ascii) : Z := Z.of_nat (nat_of_ascii c - 48).

(** The digits after the first one: a single underscore may stand
    between two digits. *)
Fixpoint to_i_digits (acc : Z) (s : string) : Z :=
  match s with
  | EmptyString => acc
  | String c s' =>
      if is_digit c then to_i_digits (10 * acc + digit_value c) s'
      else if Ascii.eqb c "_" then
        match s' with
        | String d _ => if is_digit d then to_i_digits acc s' else acc
        | EmptyString => acc
        end
      else acc
  end.

(** The digits, after an optional radix mark [0d]. *)
Definition to_i_unsigned (s : string) : Z :=
  let s :=
    match drop_prefix_i "0d" s with
    | Some (_, s') => s'
    | None => s
    end in
  match s with
  | String c _ => if is_digit c then to_i_digits 0 s else 0%Z
  | EmptyString => 0%Z
  end.

(** Leading white space, an optional sign, the digits. *)
Definition to_i (s : string) : Z :=
  match snd (span is_space s) with
  | String c s' =>
      if Ascii.eqb c "+" then to_i_unsigned s'
      else if Ascii.eqb c "-" then (- to_i_unsigned s')%Z
      else to_i_unsigned (String c s')
  | EmptyString => 0%Z
  end.

(** *** [CGI.unescapeHTML] *)

Definition is_xdigit (c : ascii) : bool :=
  let n := nat_of_ascii c in
  (is_digit c || ((65 <=? n) && (n <=? 70)) || ((97 <=? n) && (n <=? 102)))%nat.

Definition xdigit_value (c : ascii) : nat :=
  let n := nat_of_ascii (downcase_char c) in
  if is_digit c then n - 48 else n - 87.

Fixpoint number (base : nat) (acc : nat) (s : string) : nat :=
  match s with
  | EmptyString => acc
  | String c s' => number base (base * acc + xdigit_value c) s'
  end.

(** Group 1 of [#0*(\d+)] on a run of digits. *)
Fixpoint strip_zeros (s : string) : string :=
  match s with
  | String "0" (String c s' as r) => strip_zeros r
  | _ => s
  end.

(** A run of digits [ds] closed by [;], read in [base]: the character of
    a code below 128, or the reference left in the text. *)
Definition numeric_entity (base : nat) (shown : string) (ds rest : string)
  : option string :=
  match ds, rest with
  | String _ _, String ";" _ =>
      let n := number base 0 ds in
      if (n <? 128)%nat then Some (String (ascii_of_nat n) "")
      else Some ("&#" ++ shown ++ ";")%string
  | _, _ => None
  end.

(** The entity at a text that follows [&]: what replaces it and how many
    characters after the [&] belong to it. *)
Definition entity (s : string) : option (string * nat) :=
  let named (name : string) (repl : string) :=
    match drop_prefix (name ++ ";") s with
    | Some _ => Some (repl, S (String.length name))
    | None => None
    end in
  match named "apos" "'" with Some r => Some r | None =>
  match named "amp" "&" with Some r => Some r | None =>
  match named "quot" (String double_quote "") with Some r => Some r | None =>
  match named "gt" ">" with Some r => Some r | None =>
  match named "lt" "<" with Some r => Some r | None =>
  match s with
  | String "#" s1 =>
      let (ds, rest) := span is_digit s1 in
      match numeric_entity 10 (strip_zeros ds) ds rest with
      | Some r => Some (r, 2 + String.length ds)
      | None =>
          match s1 with
          | String x s2 =>
              if Ascii.eqb (downcase_char x) "x" then
                let (hs, rest) := span is_xdigit s2 in
                match numeric_entity 16 (String "x" hs) hs rest with
                | Some r => Some (r, 3 + String.length hs)
                | None => None
                end
              else None
          | EmptyString => None
          end
      end
  | _ => None
  end end end end end end.

(** The substitution, left to right; [skip] counts the characters of an
    entity still to pass over. *)
Fixpoint unescape (skip : nat) (s : string) : string :=
  match s with
  | EmptyString => EmptyString
  | String c s' =>
      match skip with
      | S k => unescape k s'
      | 0 =>
          if Ascii.eqb c "&" then
            match entity s' with
            | Some (r, n) => (r ++ unescape n s')%string
            | None => String c (unescape 0 s')
            end
          else String c (unescape 0 s')
      end
  end.

Definition unescapeHTML (s : string) : string := unescape 0 s.

(** *** [Base64.decode64] *)

Definition sextet (c : ascii) : option nat :=
  let n := nat_of_ascii c in
  if ((65 <=? n) && (n <=? 90))%nat then Some (n - 65)
  else if ((97 <=? n) && (n <=? 122))%nat then Some (n - 71)
  else if is_digit c then Some (n + 4)
  else if Ascii.eqb c "+" then Some 62
  else if Ascii.eqb c "/" then Some 63
  else None.

Fixpoint sextet_bits (s : string) : list bool :=
  match s with
  | EmptyString => []
  | String c s' =>
      if Ascii.eqb c "=" then []
      else
        match sextet c with
        | Some n =>
            Nat.testbit n 5 :: Nat.testbit n 4 :: Nat.testbit n 3 ::
            Nat.testbit n 2 :: Nat.testbit n 1 :: Nat.testbit n 0 ::
            sextet_bits s'
        | None => sextet_bits s'
        end
  end.

Fixpoint bytes_of_bits (bs : list bool) : string :=
  match bs with
  | b7 :: b6 :: b5 :: b4 :: b3 :: b2 :: b1 :: b0 :: rest =>
      String (Ascii b0 b1 b2 b3 b4 b5 b6 b7) (bytes_of_bits rest)
  | _ => EmptyString
  end.

Definition decode64 (s : string) : string := bytes_of_bits (sextet_bits s).

(** *** Floats, dates, objects, encodings *)

Definition RValue : Type := value (option string) string string.

Definition to_f (s : string) : option string := Some s.

(** [dddd-dd-ddTdd:dd:ddZ] *)
Definition timestamp (s : string) : bool :=
  match list_ascii_of_string s with
  | [y1; y2; y3; y4; d1; m1; m2; d2; a1; a2; t; h1; h2; c1; n1; n2; c2; s1; s2; z] =>
      forallb is_digit [y1; y2; y3; y4; m1; m2; a1; a2; h1; h2; n1; n2; s1; s2]
      && Ascii.eqb d1 "-" && Ascii.eqb d2 "-" && Ascii.eqb t "T"
      && Ascii.eqb c1 ":" && Ascii.eqb c2 ":" && Ascii.eqb z "Z"
  | _ => false
  end.

Definition parse_date (s : string) : option string :=
  if timestamp s then Some s else None.

(** The header of a serialized object: version 4.8. *)
Definition load (s : string) : option RValue :=
  match s with
  | String a (String b _) =>
      if ((nat_of_ascii a =? 4) && (nat_of_ascii b =? 8))%nat
      then Some (VObject s) else None
  | _ => None
  end.

Definition encodings : list string :=
  ["utf-8"; "us-ascii"; "ascii"; "iso-8859-1"; "ascii-8bit"; "binary";
   "utf-16le"; "utf-16be"].

Definition find_encoding (name : option string) : completion string :=
  match name with
  | None => Raise (TypeError "no implicit conversion of nil into String")
  | Some n =>
      if existsb (String.eqb (downcase n)) encodings then Return (downcase n)
      else Raise (ArgumentError "unknown encoding name")
  end.

Definition in_range (lo hi : nat) (c : ascii) : bool :=
  let n := nat_of_ascii c in ((lo <=? n) && (n <=? hi))%nat.

(** The bytes that have to follow the first byte of a character of
    UTF-8, each with its range; [None] for a byte that starts none. *)
Definition utf8_tail (c : ascii) : option (list (nat * nat)) :=
  let n := nat_of_ascii c in
  if (n <=? 127)%nat then Some []
  else if (n <? 194)%nat then None
  else if (n <=? 223)%nat then Some [(128, 191)]
  else if (n =? 224)%nat then Some [(160, 191); (128, 191)]
  else if (n =? 237)%nat then Some [(128, 159); (128, 191)]
  else if (n <=? 239)%nat then Some [(128, 191); (128, 191)]
  else if (n =? 240)%nat then Some [(144, 191); (128, 191); (128, 191)]
  else if (n <=? 243)%nat then Some [(128, 191); (128, 191); (128, 191)]
  else if (n =? 244)%nat then Some [(128, 143); (128, 191); (128, 191)]
  else None.

Fixpoint utf8_valid (expect : list (nat * nat)) (s : string) : bool :=
  match s with
  | EmptyString => match expect with [] => true | _ :: _ => false end
  | String c s' =>
      match expect with
      | (lo, hi) :: r => in_range lo hi c && utf8_valid r s'
      | [] =>
          match utf8_tail c with
          | Some r => utf8_valid r s'
          | None => false
          end
      end
  end.

(** Of each code unit of UTF-16 the byte of its high bits; [None] for a
    text of an odd number of bytes. *)
Fixpoint utf16_high_bytes (big_endian : bool) (s : string)
  : option (list ascii) :=
  match s with
  | EmptyString => Some []
  | String _ EmptyString => None
  | String a (String b s') =>
      option_map (cons (if big_endian then a else b))
        (utf16_high_bytes big_endian s')
  end.

Fixpoint surrogates_paired (units : list ascii) : bool :=
  match units with
  | [] => true
  | h :: r =>
      if in_range 216 219 h
      then match r with
           | h2 :: r2 => in_range 220 223 h2 && surrogates_paired r2
           | [] => false
           end
      else negb (in_range 220 223 h) && surrogates_paired r
  end.

Definition utf16_valid (big_endian : bool) (s : string) : bool :=
  match utf16_high_bytes big_endian s with
  | Some units => surrogates_paired units
  | None => false
  end.

(** What a scan raises on a text that bears the encoding: the check of
    the bytes comes before the check of the encoding against the one of
    the pattern. *)
Definition scan_error (encoding : string) (s : string) : option exception :=
  if String.eqb encoding "utf-16le"
  then if utf16_valid false s
       then Some (CompatibilityError
         "incompatible encoding regexp match (US-ASCII regexp with UTF-16LE string)")
       else Some (ArgumentError "invalid byte sequence in UTF-16LE")
  else if String.eqb encoding "utf-16be"
  then if utf16_valid true s
       then Some (CompatibilityError
         "incompatible encoding regexp match (US-ASCII regexp with UTF-16BE string)")
       else Some (ArgumentError "invalid byte sequence in UTF-16BE")
  else if existsb (String.eqb encoding) ["us-ascii"; "ascii"]
  then if contains (in_range 128 255) s
       then Some (ArgumentError "invalid byte sequence in US-ASCII")
       else None
  else if String.eqb encoding "utf-8"
  then if utf8_valid [] s then None
       else Some (ArgumentError "invalid byte sequence in UTF-8")
  else None.

(** No file exists. *)
Definition read_file (name : string) : option (completion string) := None.

(** *** Key equality *)

Definition io_eqb (a b : StringIO) : bool := false.

Fixpoint eql (a b : RValue) : bool :=
  match a, b with
  | VNil, VNil => true
  | VBool x, VBool y => Bool.eqb x y
  | VInt x, VInt y => Z.eqb x y
  | VFloat (Some x), VFloat (Some y) => String.eqb x y
  | VFloat None, VFloat None => true
  | VStr x, VStr y => String.eqb x y
  | VArray xs, VArray ys =>
      (fix all2 (xs ys : list RValue) : bool :=
         match xs, ys with
         | [], [] => true
         | x :: xs', y :: ys' => eql x y && all2 xs' ys'
         | _, _ => false
         end) xs ys
  | VHash xs, VHash ys =>
      (length xs =? length ys)%nat &&
      (fix all (xs : list (RValue * RValue)) : bool :=
         match xs with
         | [] => true
         | (k, v) :: xs' =>
             existsb (fun e => eql k (fst e) && eql v (snd e)) ys && all xs'
         end) xs
  | VDateTime x, VDateTime y => String.eqb x y
  | VStringIO x, VStringIO y => io_eqb x y
  | VObject x, VObject y => String.eqb x y
  | _, _ => false
  end.

End Reference.

(* ================================================================== *)
(** ** The reference platform is a platform *)

Lemma contains_span (f g : ascii -> bool) (s : string) :
  contains f s = false -> contains f (snd (span g s)) = false.
Proof.
  induction s as [|c s IH]; simpl; intros H; [reflexivity|].
  apply orb_false_iff in H. destruct H as [Hc Hs].
  destruct (g c).
  - specialize (IH Hs). destruct (span g s); simpl in *. exact IH.
  - simpl. rewrite Hc, Hs. reflexivity.
Qed.

Lemma not_digit_not_zero (c : ascii) :
  is_digit c = false -> Ascii.eqb (downcase_char "0") (downcase_char c) = false.
Proof.
  destruct c as [[] [] [] [] [] [] [] []]; vm_compute; congruence.
Qed.

Lemma to_i_unsigned_no_digit (s : string) :
  contains is_digit s = false -> Reference.to_i_unsigned s = 0%Z.
Proof.
  intros H. unfold Reference.to_i_unsigned.
  destruct s as [|c s]; [reflexivity|].
  cbn [contains] in H. apply orb_false_iff in H. destruct H as [Hc Hs].
  cbn [drop_prefix_i]. rewrite (not_digit_not_zero c Hc), Hc. reflexivity.
Qed.

Lemma to_i_no_digit (s : string) :
  contains is_digit s = false -> Reference.to_i s = 0%Z.
Proof.
  intros H. unfold Reference.to_i.
  pose proof (contains_span is_digit is_space s H) as H'.
  destruct (snd (span is_space s)) as [|c r]; [reflexivity|].
  simpl in H'. apply orb_false_iff in H'. destruct H' as [Hc Hr].
  destruct (Ascii.eqb c "+").
  - apply to_i_unsigned_no_digit, Hr.
  - destruct (Ascii.eqb c "-").
    + rewrite (to_i_unsigned_no_digit r Hr). reflexivity.
    + apply to_i_unsigned_no_digit. simpl. rewrite Hc, Hr. reflexivity.
Qed.

#[export] Instance reference : Platform := {|
  Float := option string;
  DateTime := string;
  Object := string;
  String_to_i := Reference.to_i;
  String_to_f := Reference.to_f;
  Nil_to_f := None;
  CGI_unescapeHTML := Reference.unescapeHTML;
  DateTime_parse := Reference.parse_date;
  Base64_decode64 := Reference.decode64;
  Marshal_load := Reference.load;
  eql := Reference.eql;
  Encoding := string;
  Encoding_find := Reference.find_encoding;
  Encoding_scan_error := Reference.scan_error;
  File_read := Reference.read_file;
  String_to_i_no_digit := to_i_no_digit;
  CGI_unescapeHTML_empty := eq_refl;
  eql_VStr := fun a b => eq_refl
|}.

(* ================================================================== *)
(** ** Every pattern takes text away *)

Lemma drop_prefix_length (p s r : string) :
  drop_prefix p s = Some r -> String.length s = String.length p + String.length r.
Proof.
  revert s. induction p as [|a p IH]; intros s H; simpl in *.
  - congruence.
  - destruct s as [|b s]; [discriminate|].
    destruct (Ascii.eqb a b); [|discriminate].
    simpl. rewrite (IH _ H). reflexivity.
Qed.

Lemma drop_prefix_i_length (p s m r : string) :
  drop_prefix_i p s = Some (m, r) ->
  String.length s = String.length p + String.length r.
Proof.
  revert s m. induction p as [|a p IH]; intros s m H; simpl in *.
  - congruence.
  - destruct s as [|b s]; [discriminate|].
    destruct (Ascii.eqb (downcase_char a) (downcase_char b)); [|discriminate].
    destruct (drop_prefix_i p s) as [[m' r']|] eqn:E; [|discriminate].
    injection H as _ <-. simpl. rewrite (IH _ _ E). reflexivity.
Qed.

Lemma span_length (f : ascii -> bool) (s : string) :
  String.length s = String.length (fst (span f s)) + String.length (snd (span f s)).
Proof.
  induction s as [|c s IH]; simpl; [reflexivity|].
  destruct (f c); [|reflexivity].
  destruct (span f s); simpl in *. rewrite IH. reflexivity.
Qed.

Lemma split_at_length (f : ascii -> bool) (s a b : string) (c : ascii) :
  split_at f s = Some (a, c, b) ->
  String.length s = String.length a + S (String.length b).
Proof.
  revert a. induction s as [|d s IH]; intros a H; simpl in *; [discriminate|].
  destruct (f d).
  - injection H as <- <- <-. reflexivity.
  - destruct (split_at f s) as [[[a' c'] b']|] eqn:E; [|discriminate].
    injection H as <- <- <-. simpl. rewrite (IH _ eq_refl). reflexivity.
Qed.

Lemma after_first_length (p s r : string) :
  after_first p s = Some r ->
  String.length p + String.length r <= String.length s.
Proof.
  induction s as [|c s IH]; intros H.
  - simpl in H. destruct (drop_prefix p "") eqn:E; [|discriminate].
    injection H as ->. apply drop_prefix_length in E. lia.
  - simpl in H. destruct (drop_prefix p (String c s)) eqn:E.
    + injection H as ->. apply drop_prefix_length in E. lia.
    + specialize (IH H). simpl. lia.
Qed.

Lemma alternation_length (A : Type) (size : A -> nat) (names : list string)
  (s : string) (k : string -> string -> option A) (a : A) :
  (forall m r x, k m r = Some x -> size x <= String.length r) ->
  alternation names s k = Some a -> size a <= String.length s.
Proof.
  intros Hk. induction names as [|n names IH]; simpl; [discriminate|].
  destruct (drop_prefix_i n s) as [[m r]|] eqn:E; [|exact IH].
  destruct (k m r) as [x|] eqn:Ek; [|exact IH].
  intros H. injection H as <-. apply Hk in Ek.
  apply drop_prefix_i_length in E. lia.
Qed.

Lemma up_to_gt_length (s g r : string) :
  up_to_gt s = Some (g, r) -> String.length r < String.length s.
Proof.
  unfold up_to_gt. destruct (split_at (Ascii.eqb ">") s) as [[[a c] b]|] eqn:E;
    [|discriminate].
  intros H. injection H as _ <-. apply split_at_length in E. lia.
Qed.

Lemma COMMENT_START_length (s r : string) :
  COMMENT_START s = Some r -> String.length r < String.length s.
Proof.
  intros H. apply drop_prefix_length in H. simpl in H. lia.
Qed.

Lemma COMMENT_END_length (s r : string) :
  COMMENT_END s = Some r -> String.length r <= String.length s.
Proof.
  intros H. apply after_first_length in H. lia.
Qed.

Lemma XMLDECL_PATTERN_length (s g r : string) :
  XMLDECL_PATTERN s = Some (g, r) -> String.length r < String.length s.
Proof.
  unfold XMLDECL_PATTERN.
  destruct (drop_prefix "<?xml" s) as [s1|] eqn:E1; [|discriminate].
  pose proof (span_length is_space s1) as L1.
  destruct (span is_space s1) as [w s2]. simpl in L1.
  destruct w as [|w0 w]; [discriminate|].
  destruct (split_at (Ascii.eqb "?") s2) as [[[g0 c0] s3]|] eqn:E2; [|discriminate].
  intros H. injection H as _ <-.
  pose proof (span_length (Ascii.eqb ">") s3) as L3.
  apply drop_prefix_length in E1. apply split_at_length in E2.
  simpl in *. lia.
Qed.

Lemma DOCTYPE_PATTERN_length (s r : string) :
  DOCTYPE_PATTERN s = Some r -> String.length r < String.length s.
Proof.
  unfold DOCTYPE_PATTERN.
  pose proof (span_length is_space s) as L0.
  destruct (drop_prefix "<!DOCTYPE" (snd (span is_space s))) as [s1|] eqn:E1;
    [|discriminate].
  pose proof (span_length is_space s1) as L1.
  destruct (span is_space s1) as [w s2]. simpl in L1.
  destruct w as [|w0 w]; [discriminate|].
  destruct (split_at _ s2) as [[[g0 c0] s3]|] eqn:E2; [|discriminate].
  intros H. injection H as <-.
  apply drop_prefix_length in E1. apply split_at_length in E2.
  simpl in *. lia.
Qed.

Lemma start_tag_length (names : list string) (s g1 g2 r : string) :
  start_tag names s = Some (g1, g2, r) -> String.length r < String.length s.
Proof.
  unfold start_tag.
  destruct (drop_prefix "<" s) as [s1|] eqn:E1; [|discriminate].
  intros H. apply drop_prefix_length in E1.
  apply (alternation_length (fun x => String.length (snd x))) in H.
  - simpl in *. lia.
  - intros m r0 x Hx. destruct (up_to_gt r0) as [[a b]|] eqn:E; [|discriminate].
    injection Hx as <-. apply up_to_gt_length in E. simpl. lia.
Qed.

Lemma end_tag_length (names : list string) (s g1 r : string) :
  end_tag names s = Some (g1, r) -> String.length r < String.length s.
Proof.
  unfold end_tag.
  destruct (drop_prefix "</" s) as [s1|] eqn:E1; [|discriminate].
  intros H. apply drop_prefix_length in E1.
  apply (alternation_length (fun x => String.length (snd x))) in H.
  - simpl in *. lia.
  - intros m r0 x Hx. destruct (up_to_gt r0) as [[a b]|] eqn:E; [|discriminate].
    injection Hx as <-. apply up_to_gt_length in E. simpl. lia.
Qed.

Lemma TEXT_length (s g r : string) :
  TEXT s = Some (g, r) -> String.length r < String.length s.
Proof.
  unfold TEXT.
  pose proof (span_length (fun c => negb (Ascii.eqb c "<")) s) as L.
  destruct (span _ s) as [a b]. simpl in L.
  destruct a as [|a0 a]; [discriminate|].
  intros H. injection H as _ <-. simpl in L. lia.
Qed.

(* ================================================================== *)
(** ** The loop of [parse] *)

Section Loop.

Context {P : Platform}.

(** [Plist.parse_xml] is [parse_xml] on the text that the constructor
    keeps: the text given, when it names no file; the content of the
    file, when it names one; what [read] returns, for a stream. *)
Lemma Plist_parse_xml_text (s : string) :
  File_read s = None -> Plist_parse_xml (Text s) = parse_xml s.
Proof.
  intros H. unfold Plist_parse_xml, StreamParser_new. rewrite H. reflexivity.
Qed.

Lemma Plist_parse_xml_file (name content : string) :
  File_read name = Some (Return content) ->
  Plist_parse_xml (Text name) = parse_xml content.
Proof.
  intros H. unfold Plist_parse_xml, StreamParser_new. rewrite H. reflexivity.
Qed.

Lemma Plist_parse_xml_read (content : string) :
  Plist_parse_xml (IO (Return content)) = parse_xml content.
Proof.
  reflexivity.
Qed.

Lemma force_encoding_returns (rest s : string) (e : Encoding) :
  force_encoding rest e = Return s -> s = rest.
Proof.
  unfold force_encoding. destruct rest as [|c rest].
  - intros H. injection H as <-. reflexivity.
  - destruct (Encoding_scan_error e (String c rest)); [discriminate|].
    intros H. injection H as <-. reflexivity.
Qed.

Lemma parse_turn_length (l l' : Listener) (s s' : string) :
  parse_turn l s = Return (l', s') -> String.length s' < String.length s.
Proof.
  unfold parse_turn.
  destruct (COMMENT_START s) as [s1|] eqn:E1.
  { apply COMMENT_START_length in E1.
    destruct (COMMENT_END s1) as [s2|] eqn:E2; intros H; injection H as _ <-.
    - apply COMMENT_END_length in E2. lia.
    - exact E1. }
  destruct (XMLDECL_PATTERN s) as [[g s1]|] eqn:E2.
  { apply XMLDECL_PATTERN_length in E2.
    destruct (parse_encoding_from_xml_declaration g) as [[e|]|]; cbn [bind];
      [|intros H; injection H as _ <-; exact E2 | discriminate].
    destruct (force_encoding s1 e) as [s2|x] eqn:Ef; cbn [bind];
      [|discriminate].
    apply force_encoding_returns in Ef. subst s2.
    intros H. injection H as _ <-. exact E2. }
  destruct (DOCTYPE_PATTERN s) as [s1|] eqn:E3.
  { apply DOCTYPE_PATTERN_length in E3. intros H. injection H as _ <-. exact E3. }
  destruct (start_tag mappings_keys s) as [[[g1 g2] s1]|] eqn:E4.
  { apply start_tag_length in E4.
    destruct (tag_start l g1) as [l1|]; simpl; [|discriminate].
    destruct (slash_at_eol g2).
    - destruct (tag_end l1 g1); simpl; intros H; [|discriminate].
      injection H as _ <-. exact E4.
    - intros H. injection H as _ <-. exact E4. }
  destruct (TEXT s) as [[g s1]|] eqn:E5.
  { apply TEXT_length in E5. intros H. injection H as _ <-. exact E5. }
  destruct (end_tag mappings_keys s) as [[g s1]|] eqn:E6; [|discriminate].
  apply end_tag_length in E6.
  destruct (tag_end l g); simpl; intros H; [|discriminate].
  injection H as _ <-. exact E6.
Qed.

(** One turn for each character is enough. *)
Lemma parse_loop_enough (fuel : nat) (l : Listener) (s : string) :
  String.length s <= fuel -> exists r, parse_loop fuel l s = Some r.
Proof.
  revert l s. induction fuel as [|fuel IH]; intros l s Hs.
  - destruct s; simpl in *; [eauto | lia].
  - destruct s as [|c s]; [simpl; eauto|].
    cbn [parse_loop].
    destruct (parse_turn l (String c s)) as [[l' s']|e] eqn:E; [|eauto].
    apply IH. apply parse_turn_length in E. lia.
Qed.

(** More turns than needed change nothing. *)
Lemma parse_loop_fuel (n m : nat) (l : Listener) (s : string) :
  String.length s <= n -> String.length s <= m ->
  parse_loop n l s = parse_loop m l s.
Proof.
  revert m l s. induction n as [|n IH]; intros m l s Hn Hm.
  - destruct s; simpl in *; [|lia]. destruct m; reflexivity.
  - destruct s as [|c s]; [destruct m; reflexivity|].
    destruct m as [|m]; [simpl in Hm; lia|].
    cbn [parse_loop].
    destruct (parse_turn l (String c s)) as [[l' s']|e] eqn:E; [|reflexivity].
    apply parse_turn_length in E. apply IH; lia.
Qed.

Lemma parse_turn_parse (l l' : Listener) (c : ascii) (s s' : string) :
  parse_turn l (String c s) = Return (l', s') ->
  parse (String c s) l = parse s' l'.
Proof.
  intros E. unfold parse. cbn [String.length parse_loop]. rewrite E.
  apply parse_turn_length in E. apply parse_loop_fuel; simpl in *; lia.
Qed.

Lemma parse_turn_raise (l : Listener) (c : ascii) (s : string) (e : exception) :
  parse_turn l (String c s) = Raise e -> parse (String c s) l = Some (Raise e).
Proof.
  intros E. unfold parse. cbn [String.length parse_loop]. rewrite E. reflexivity.
Qed.

Lemma reaches_parse (st st' : Listener * string) :
  reaches st st' -> parse (snd st) (fst st) = parse (snd st') (fst st').
Proof.
  induction 1 as [st|l c s [l1 s1] st H1 H2 IH]; [reflexivity|].
  simpl. rewrite (parse_turn_parse _ _ _ H1). exact IH.
Qed.

Lemma reaches_trans (a b c : Listener * string) :
  reaches a b -> reaches b c -> reaches a c.
Proof.
  induction 1 as [|l ch s st1 st H1 H2 IH]; intros Hc; [exact Hc|].
  eapply reaches_turn; [exact H1 | exact (IH Hc)].
Qed.

(** A parse that returns has reached the end of the text. *)
Lemma parse_reaches (fuel : nat) (l l' : Listener) (s : string) :
  parse_loop fuel l s = Some (Return l') -> reaches (l, s) (l', "").
Proof.
  revert l s. induction fuel as [|fuel IH]; intros l s H.
  - destruct s; simpl in H; [|discriminate]. injection H as ->. constructor.
  - destruct s as [|c s]; [simpl in H; injection H as ->; constructor|].
    cbn [parse_loop] in H.
    destruct (parse_turn l (String c s)) as [[l1 s1]|e] eqn:E; [|discriminate].
    eapply reaches_turn; [exact E | apply IH, H].
Qed.

(** [parse_xml] always comes to an end: it returns or it raises. *)
Lemma parse_xml_total (xml : string) :
  exists r : completion Value, parse_xml xml = Some r.
Proof.
  unfold parse_xml, parse.
  destruct (@parse_loop_enough (String.length xml) Listener_new xml (le_n _))
    as [[l|e] ->]; eauto.
Qed.

End Loop.

(* ================================================================== *)
(** ** Scalars and the root wrapper *)

Section Scalars.

Context {P : Platform}.

(** C9.  A [plist] node converts to the converted value of its first
    child when it has a child, and to [nil], without an error, when it
    has none. *)
Theorem PList_to_ruby_first_child :
  (forall (t : option string) (c : PTag) (cs : list PTag),
      to_ruby (Node PList t (c :: cs)) = to_ruby c) /\
  (forall t : option string, to_ruby (Node PList t []) = Return VNil).
Proof.
  split; intros; reflexivity.
Qed.

(** C10.  A [key] or [string] node with a text converts to the
    HTML-unescaped text, whatever its children; a node whose text was
    never set converts to the empty string: it neither raises nor gives
    [nil]. *)
Theorem PKey_PString_to_ruby_unescape :
  (forall (s : string) (cs : list PTag),
      to_ruby (Node PKey (Some s) cs) = Return (VStr (CGI_unescapeHTML s)) /\
      to_ruby (Node PString (Some s) cs) = Return (VStr (CGI_unescapeHTML s))) /\
  (forall cs : list PTag,
      to_ruby (Node PKey None cs) = Return (VStr "") /\
      to_ruby (Node PString None cs) = Return (VStr "")).
Proof.
  split; intros; split; cbn [to_ruby];
    unfold PKey_to_ruby, PString_to_ruby, text_or_empty;
    rewrite ?CGI_unescapeHTML_empty; reflexivity.
Qed.

(** C2, amended.  An [integer] node whose text is not numeric converts
    to the integer 0: the conversion returns, it raises nothing. *)
Theorem PInteger_to_ruby_non_numeric (t : option string) (cs : list PTag) :
  non_numeric t = true ->
  to_ruby (Node PInteger t cs) = Return (VInt 0).
Proof.
  intros H. cbn [to_ruby]. unfold PInteger_to_ruby.
  destruct t as [s|]; [|reflexivity].
  simpl in H. apply negb_true_iff in H.
  rewrite (String_to_i_no_digit s H). reflexivity.
Qed.

(** An [integer] node converts to an integer, whatever its text. *)
Lemma PInteger_to_ruby_returns (t : option string) (cs : list PTag) :
  exists z : Z, to_ruby (Node PInteger t cs) = Return (VInt z).
Proof.
  destruct t; cbn [to_ruby]; unfold PInteger_to_ruby; eauto.
Qed.

Lemma StringIO_write_new (s : string) :
  StringIO_write StringIO_new s =
  {| io_string := s; io_pos := String.length s |}.
Proof.
  unfold StringIO_write, StringIO_new.
  destruct s as [|c s]; [reflexivity|].
  cbn [String.length Nat.eqb io_string io_pos Nat.sub nul_pad Nat.add].
  replace (substring 0 0 "") with "" by reflexivity.
  replace (substring (S (String.length s)) 0 "") with "" by reflexivity.
  cbn [String.append]. f_equal. f_equal.
  induction s as [|d s IH]; [reflexivity|]. cbn [String.append]. f_equal. exact IH.
Qed.

(** C8.  When [Marshal.load] fails on the bytes decoded from the text of
    a [data] node, the conversion does not raise: it returns a
    [StringIO] that holds those bytes, rewound to its start. *)
Theorem PData_to_ruby_fallback (t : string) (cs : list PTag) :
  Marshal_load (Base64_decode64 (gsub_space t)) = None ->
  to_ruby (Node PData (Some t) cs) =
  Return (VStringIO {| io_string := Base64_decode64 (gsub_space t); io_pos := 0 |}).
Proof.
  intros H. cbn [to_ruby]. unfold PData_to_ruby.
  cbn [PData_decoded PData_load]. rewrite H.
  unfold PData_buffer. cbn [text_or_empty].
  rewrite StringIO_write_new. reflexivity.
Qed.

(** Without a text there is nothing to load, and the buffer is empty. *)
Lemma PData_to_ruby_no_text (cs : list PTag) :
  to_ruby (Node PData None cs) =
  Return (VStringIO {| io_string := ""; io_pos := 0 |}).
Proof.
  reflexivity.
Qed.

End Scalars.

(* ================================================================== *)
(** ** Hashes with string keys *)

Section StringHash.

Variable V : Type.

Lemma keys_store (d : list (string * V)) (k : string) (v : V) :
  map fst (store String.eqb d k v) =
  if has_key (map fst d) k then map fst d else map fst d ++ [k].
Proof.
  induction d as [|[k' v'] d IH]; [reflexivity|].
  cbn [store map fst has_key existsb app].
  destruct (String.eqb k' k) eqn:E; cbn [orb map fst].
  - reflexivity.
  - rewrite IH. unfold has_key. destruct (existsb _ (map fst d)); reflexivity.
Qed.

Lemma fetch_store (d : list (string * V)) (k k0 : string) (v : V) :
  fetch String.eqb (store String.eqb d k v) k0 =
  if String.eqb k k0 then Some v else fetch String.eqb d k0.
Proof.
  induction d as [|[k' v'] d IH]; [reflexivity|].
  cbn [store fetch].
  destruct (String.eqb k' k) eqn:E; cbn [fetch].
  - apply String.eqb_eq in E. subst k'.
    destruct (String.eqb k k0); reflexivity.
  - rewrite IH. destruct (String.eqb k' k0) eqn:E0; [|reflexivity].
    apply String.eqb_eq in E0. subst k0.
    rewrite String.eqb_sym, E. reflexivity.
Qed.

Lemma fetch_app (d1 d2 : list (string * V)) (k : string) :
  fetch String.eqb (d1 ++ d2) k =
  match fetch String.eqb d1 k with
  | Some v => Some v
  | None => fetch String.eqb d2 k
  end.
Proof.
  induction d1 as [|[k' v'] d1 IH]; [reflexivity|].
  cbn [app fetch]. destruct (String.eqb k' k); [reflexivity | exact IH].
Qed.

(** Last write wins. *)
Lemma fetch_fold_put (es d : list (string * V)) (k : string) :
  fetch String.eqb (fold_left (@put V) es d) k =
  match fetch String.eqb (rev es) k with
  | Some v => Some v
  | None => fetch String.eqb d k
  end.
Proof.
  revert d. induction es as [|[ke ve] es IH]; intros d; [reflexivity|].
  cbn [fold_left rev]. rewrite IH, fetch_app. unfold put at 1.
  cbn [fst snd fetch]. rewrite fetch_store.
  destruct (fetch String.eqb (rev es) k); [reflexivity|].
  destruct (String.eqb ke k); reflexivity.
Qed.

Lemma filter_filter (A : Type) (p q : A -> bool) (l : list A) :
  filter p (filter q l) = filter (fun x => q x && p x) l.
Proof.
  induction l as [|x l IH]; [reflexivity|].
  cbn [filter]. destruct (q x); cbn [filter andb]; [|exact IH].
  destruct (p x); rewrite IH; reflexivity.
Qed.

Lemma filter_ext_bool (A : Type) (p q : A -> bool) (l : list A) :
  (forall x, p x = q x) -> filter p l = filter q l.
Proof.
  intros H. induction l as [|x l IH]; [reflexivity|].
  cbn [filter]. rewrite H, IH. reflexivity.
Qed.

Lemma has_key_app (ks : list string) (k k0 : string) :
  has_key (ks ++ [k]) k0 = has_key ks k0 || String.eqb k k0.
Proof.
  unfold has_key. rewrite existsb_app. cbn [existsb].
  rewrite orb_false_r. reflexivity.
Qed.

End StringHash.

(** Insertion order of the keys, as first met. *)
Lemma keys_fold_put (V : Type) (es d : list (string * V)) :
  map fst (fold_left (@put V) es d) =
  map fst d ++
  filter (fun k => negb (has_key (map fst d) k)) (first_occurrences (map fst es)).
Proof.
  revert d. induction es as [|[ke ve] es IH]; intros d.
  - cbn. rewrite app_nil_r. reflexivity.
  - cbn [fold_left map fst first_occurrences filter]. rewrite IH.
    pose proof (keys_store d ke ve) as K.
    change (store String.eqb d ke ve) with (put d (ke, ve)) in K. rewrite K.
    destruct (has_key (map fst d) ke) eqn:E; cbn [negb].
    + f_equal. rewrite filter_filter. apply filter_ext_bool. intros x.
      destruct (String.eqb ke x) eqn:Ex; cbn [negb andb]; [|reflexivity].
      apply String.eqb_eq in Ex. subst x. rewrite E. reflexivity.
    + rewrite <- app_assoc. cbn [app]. f_equal. f_equal.
      rewrite filter_filter. apply filter_ext_bool. intros x.
      rewrite has_key_app, negb_orb, andb_comm. reflexivity.
Qed.

(* ================================================================== *)
(** ** Dictionaries *)

Section Dictionaries.

Context {P : Platform}.

Lemma to_ruby_key (k : PTag) :
  class_of k = PKey -> to_ruby k = Return (VStr (key_string k)).
Proof.
  destruct k as [c t cs]. simpl. intros ->. reflexivity.
Qed.

Lemma Hash_store_lift (d : list (string * Value)) (k : string) (v : Value) :
  Hash_store (lift d) (VStr k) v = lift (store String.eqb d k v).
Proof.
  unfold Hash_store, lift.
  induction d as [|[k' v'] d IH]; [reflexivity|].
  cbn [map store fst snd]. rewrite eql_VStr.
  destruct (String.eqb k' k); [reflexivity|].
  cbn [map fst snd]. rewrite IH. reflexivity.
Qed.

Lemma fetch_lift (d : list (string * Value)) (k : string) :
  fetch eql (lift d) (VStr k) = fetch String.eqb d k.
Proof.
  unfold lift. induction d as [|[k' v'] d IH]; [reflexivity|].
  cbn [map fetch fst snd]. rewrite eql_VStr.
  destruct (String.eqb k' k); [reflexivity | exact IH].
Qed.

Lemma keys_lift (d : list (string * Value)) :
  map fst (lift d) = map VStr (map fst d).
Proof.
  unfold lift. rewrite !map_map. reflexivity.
Qed.

(** The loop of [PDict#to_ruby] over pairs of a key and a value. *)
Lemma PDict_each_pairs (pairs : list (PTag * PTag)) (vals : list Value)
  (d : list (string * Value)) :
  Forall (fun kv => class_of (fst kv) = PKey) pairs ->
  Forall2 (fun kv v => to_ruby (snd kv) = Return v) pairs vals ->
  PDict_each to_ruby (alternate pairs) (lift d) VNil =
  Return (lift (fold_left (@put Value)
                  (combine (map key_string (map fst pairs)) vals) d)).
Proof.
  intros Hk Hv. revert d Hk.
  induction Hv as [|[k n] v pairs vals Hn Hv IH]; intros d Hk; [reflexivity|].
  inversion Hk as [|? ? Hk1 Hk2]; subst.
  cbn [alternate PDict_each is_nil fst snd map combine fold_left] in *.
  rewrite (to_ruby_key k Hk1). cbn [bind PDict_each is_nil].
  rewrite Hn. cbn [bind]. rewrite Hash_store_lift. apply IH, Hk2.
Qed.

(** C7.  A [dict] node whose children are pairs of a [key] node and a
    value converts to a hash from the strings of the keys to the
    converted values: its keys come in the order in which each was met
    first, and the value of a key is the one of the last pair with that
    key. *)
Theorem PDict_to_ruby_pairs (t : option string) (pairs : list (PTag * PTag))
  (vals : list Value) :
  Forall (fun kv => class_of (fst kv) = PKey) pairs ->
  Forall2 (fun kv v => to_ruby (snd kv) = Return v) pairs vals ->
  exists dict : list (Value * Value),
    to_ruby (Node PDict t (alternate pairs)) = Return (VHash dict) /\
    map fst dict = map VStr (first_occurrences (map key_string (map fst pairs))) /\
    forall k : string,
      fetch eql dict (VStr k) =
      last_value (combine (map key_string (map fst pairs)) vals) k.
Proof.
  intros Hk Hv.
  set (entries := combine (map key_string (map fst pairs)) vals).
  exists (lift (fold_left (@put Value) entries [])). split; [|split].
  - cbn [to_ruby]. unfold PDict_to_ruby.
    change (@nil (Value * Value)) with (lift []).
    rewrite (PDict_each_pairs [] Hk Hv). reflexivity.
  - rewrite keys_lift, keys_fold_put. cbn [map app]. f_equal.
    assert (map fst entries = map key_string (map fst pairs)) as ->.
    { unfold entries. clear Hk.
      induction Hv as [|[k n] v ps vs _ _ IH]; [reflexivity|].
      cbn [map combine fst]. rewrite IH. reflexivity. }
    induction (first_occurrences _) as [|x l IH]; [reflexivity|].
    simpl in *. rewrite IH. reflexivity.
  - intros k. rewrite fetch_lift, fetch_fold_put. unfold last_value.
    destruct (fetch String.eqb (rev entries) k); reflexivity.
Qed.

Lemma PDict_each_trailing_key (pairs : list (PTag * PTag)) (k : PTag)
  (d : list (Value * Value)) :
  Forall (fun kv => class_of (fst kv) = PKey) pairs ->
  class_of k = PKey ->
  PDict_each to_ruby (alternate pairs ++ [k]) d VNil =
  PDict_each to_ruby (alternate pairs) d VNil.
Proof.
  intros Hp Hk. revert d.
  induction Hp as [|[k1 n] pairs Hk1 Hp IH]; intros d.
  - cbn [alternate app PDict_each is_nil]. rewrite (to_ruby_key k Hk).
    reflexivity.
  - cbn [alternate app PDict_each is_nil fst] in *.
    rewrite (to_ruby_key k1 Hk1). cbn [bind PDict_each is_nil].
    destruct (to_ruby n) as [v|e]; cbn [bind]; [apply IH | reflexivity].
Qed.

(** C3, amended.  A [dict] node whose children are pairs of a key and a
    value and then one more key converts as the node without that last
    key does: the key is left out, and nothing is raised for it. *)
Theorem PDict_to_ruby_trailing_key (t : option string)
  (pairs : list (PTag * PTag)) (k : PTag) :
  Forall (fun kv => class_of (fst kv) = PKey) pairs ->
  class_of k = PKey ->
  to_ruby (Node PDict t (alternate pairs ++ [k])) =
  to_ruby (Node PDict t (alternate pairs)).
Proof.
  intros Hp Hk. cbn [to_ruby]. unfold PDict_to_ruby.
  rewrite (@PDict_each_trailing_key pairs k [] Hp Hk). reflexivity.
Qed.

End Dictionaries.

(* ================================================================== *)
(** ** The listener *)

Lemma pop_snoc (A : Type) (a : list A) (x : A) : pop (a ++ [x]) = Some (a, x).
Proof.
  induction a as [|y a IH]; [reflexivity|].
  cbn [app pop]. rewrite IH. reflexivity.
Qed.

Lemma update_last_snoc (A : Type) (f : A -> A) (a : list A) (x : A) :
  update_last f (a ++ [x]) = a ++ [f x].
Proof.
  induction a as [|y a IH]; [reflexivity|].
  cbn [app update_last]. rewrite IH.
  destruct a; reflexivity.
Qed.

Lemma set_text_set_text (c c' : string) (n : PTag) :
  set_text c (set_text c' n) = set_text c n.
Proof.
  destruct n. reflexivity.
Qed.

Section ListenerFacts.

Context {P : Platform}.

Lemma Listener_text_top (r : Value) (below : list PTag) (n : PTag)
  (contents : string) :
  Listener_text {| result := r; open := below ++ [n] |} contents =
  {| result := r; open := below ++ [set_text contents n] |}.
Proof.
  unfold Listener_text. cbn [open result].
  rewrite update_last_snoc, length_app. cbn [length].
  destruct (0 <? length below + 1)%nat eqn:E; [reflexivity|].
  apply Nat.ltb_ge in E. lia.
Qed.

(** C4, amended.  Each text event, while a node is on top of the stack,
    puts its contents in the place of the text of that node: after
    several events the text of the node is the contents of the last one,
    and nothing else of the listener has changed. *)
Theorem Listener_text_replaces (r : Value) (below : list PTag) (n : PTag)
  (runs : list string) (last_run : string) :
  fold_left Listener_text (runs ++ [last_run])
    {| result := r; open := below ++ [n] |} =
  {| result := r; open := below ++ [set_text last_run n] |} /\
  text (set_text last_run n) = Some last_run.
Proof.
  split; [|reflexivity].
  revert n. induction runs as [|c runs IH]; intros n.
  - cbn [app fold_left]. apply Listener_text_top.
  - cbn [app fold_left]. rewrite Listener_text_top, IH, set_text_set_text.
    reflexivity.
Qed.

Lemma tag_start_open (l l1 : Listener) (name : string) :
  tag_start l name = Return l1 ->
  result l1 = result l /\ exists n, open l1 = open l ++ [n].
Proof.
  unfold tag_start. destruct (fetch String.eqb PTag_mappings name) as [c|];
    [|discriminate].
  intros H. injection H as <-. cbn [result open]. eauto.
Qed.

Lemma tag_end_result (l l1 : Listener) (name : string) :
  tag_end l name = Return l1 ->
  (open l1 = [] /\ exists n, open l = [n]) \/
  (open l1 <> [] /\ result l1 = result l).
Proof.
  unfold tag_end. destruct (pop (open l)) as [[rest last]|] eqn:E; [|discriminate].
  destruct rest as [|x rest]; cbn [length Nat.eqb].
  - destruct (to_ruby last) as [v|e]; cbn [bind]; [|discriminate].
    intros H. injection H as <-. left. split; [reflexivity|].
    destruct (open l) as [|y [|z o]]; cbn [pop] in E; try discriminate.
    + injection E as <-. eauto.
    + destruct (pop o) as [[? ?]|]; discriminate.
  - intros H. injection H as <-. right. cbn [open result]. split; [|reflexivity].
    cbn [update_last]. destruct rest; discriminate.
Qed.

(** A turn that leaves a node on the stack leaves the result as it was. *)
Lemma parse_turn_result (l l' : Listener) (s s' : string) :
  parse_turn l s = Return (l', s') -> open l' <> [] -> result l' = result l.
Proof.
  unfold parse_turn.
  destruct (COMMENT_START s) as [s1|].
  { destruct (COMMENT_END s1); intros H; injection H as <- _; reflexivity. }
  destruct (XMLDECL_PATTERN s) as [[g s1]|].
  { destruct (parse_encoding_from_xml_declaration g) as [[e|]|]; cbn [bind];
      [|intros H; injection H as <- _; reflexivity | discriminate].
    destruct (force_encoding s1 e) as [s2|x]; cbn [bind]; [|discriminate].
    intros H. injection H as <- _. reflexivity. }
  destruct (DOCTYPE_PATTERN s) as [s1|].
  { intros H. injection H as <- _. reflexivity. }
  destruct (start_tag mappings_keys s) as [[[g1 g2] s1]|].
  { destruct (tag_start l g1) as [l1|] eqn:E1; cbn [bind]; [|discriminate].
    apply tag_start_open in E1. destruct E1 as [R1 [n O1]].
    destruct (slash_at_eol g2).
    - destruct (tag_end l1 g1) as [l2|] eqn:E2; cbn [bind]; [|discriminate].
      intros H. injection H as <- _. intros Hne.
      apply tag_end_result in E2. destruct E2 as [[E2 _]|[_ E2]]; congruence.
    - intros H. injection H as <- _. intros _. exact R1. }
  destruct (TEXT s) as [[g s1]|].
  { intros H. injection H as <- _. intros _. unfold Listener_text.
    destruct (0 <? length (open l))%nat; reflexivity. }
  destruct (end_tag mappings_keys s) as [[g s1]|]; [|discriminate].
  destruct (tag_end l g) as [l1|] eqn:E; cbn [bind]; [|discriminate].
  intros H. injection H as <- _. intros Hne.
  apply tag_end_result in E. destruct E as [[E _]|[_ E]]; congruence.
Qed.

Lemma reaches_result_nil (xml : string) (st0 st : Listener * string) :
  (forall l' s', reaches (Listener_new, xml) (l', s') -> open l' = [] ->
                 l' = Listener_new) ->
  reaches st0 st ->
  reaches (Listener_new, xml) st0 ->
  result (fst st0) = VNil ->
  result (fst st) = VNil.
Proof.
  intros Hroot H. induction H as [st|l c s [l1 s1] st H1 H2 IH]; intros H0 R0.
  - exact R0.
  - assert (reaches (Listener_new, xml) (l1, s1)) as H01.
    { eapply reaches_trans; [exact H0|].
      eapply reaches_turn; [exact H1 | constructor]. }
    apply IH; [exact H01|]. cbn [fst] in *.
    destruct (open l1) as [|n o] eqn:E.
    + rewrite (Hroot _ _ H01 E). reflexivity.
    + rewrite (parse_turn_result _ _ H1); [exact R0 | congruence].
Qed.

(** C1, amended.  When the text ends while nodes are still open, and no
    turn of the scan has raised, [parse_xml] does not raise: it returns
    the result of the listener as it stands, and that is [nil] when the
    stack, once it held a node, was never emptied. *)
Theorem parse_xml_unterminated (xml : string) (l : Listener) :
  parse xml Listener_new = Some (Return l) ->
  open l <> [] ->
  parse_xml xml = Some (Return (result l)) /\
  ((forall l' s', reaches (Listener_new, xml) (l', s') -> open l' = [] ->
                  l' = Listener_new) ->
   parse_xml xml = Some (Return VNil)).
Proof.
  intros H Ho. unfold parse_xml. rewrite H. split; [reflexivity|].
  intros Hroot. do 2 f_equal.
  apply parse_reaches in H.
  exact (reaches_result_nil Hroot H (reaches_here _) eq_refl).
Qed.

End ListenerFacts.

(* ================================================================== *)
(** ** Tag names *)

Lemma PTag_mappings_table :
  PTag_mappings =
  [("plist", PList); ("dict", PDict); ("key", PKey); ("string", PString);
   ("array", PArray); ("integer", PInteger); ("true", PTrue);
   ("false", PFalse); ("real", PReal); ("date", PDate); ("data", PData)].
Proof.
  reflexivity.
Qed.



Section TagNames.

Context {P : Platform}.



(** The listener knows a name only in the spelling of the registry. *)
Lemma tag_start_other_case (l : Listener) (name : string) :
  downcase name <> name ->
  tag_start l name = Raise (NoMethodError "nil" "new").
Proof.
  intros H. unfold tag_start. rewrite PTag_mappings_table. cbn [fetch].
  repeat match goal with
  | |- context [String.eqb ?k name] =>
      destruct (String.eqb_spec k name) as [E|_];
      [exfalso; apply H; rewrite <- E; reflexivity|]
  end.
  reflexivity.
Qed.

(** C6.  The start tag pattern takes [<DICT>] as it takes [<dict>] and
    hands the name on as it is spelled; the listener then finds no class
    under that name, and the parse raises where the lower-case document
    returns a hash. *)
Theorem parse_xml_uppercase_start_tag :
  start_tag mappings_keys "<DICT></DICT>" = Some ("DICT", "", "</DICT>") /\
  start_tag mappings_keys "<dict></dict>" = Some ("dict", "", "</dict>") /\
  parse_xml "<DICT></DICT>" = Some (Raise (NoMethodError "nil" "new")) /\
  parse_xml "<dict></dict>" = Some (Return (VHash [])).
Proof.
  repeat split; reflexivity.
Qed.

End TagNames.

(* ================================================================== *)
(** ** Texts put together *)

Lemma append_assoc (a b c : string) :
  ((a ++ b) ++ c)%string = (a ++ (b ++ c))%string.
Proof.
  induction a as [|x a IH]; [reflexivity|]. cbn [String.append]. rewrite IH.
  reflexivity.
Qed.

Lemma append_nil_r (a : string) : (a ++ "")%string = a.
Proof.
  induction a as [|x a IH]; [reflexivity|]. cbn [String.append]. rewrite IH.
  reflexivity.
Qed.

Lemma span_append (f : ascii -> bool) (a r : string) :
  all_chars f a = true -> stops f r = true -> span f (a ++ r) = (a, r).
Proof.
  intros Ha Hr. induction a as [|x a IH].
  - destruct r as [|c r]; [reflexivity|]. cbn [String.append span].
    cbn [stops] in Hr. apply negb_true_iff in Hr. rewrite Hr. reflexivity.
  - cbn [all_chars] in Ha. apply andb_true_iff in Ha. destruct Ha as [Hx Ha].
    cbn [String.append span]. rewrite Hx, (IH Ha). reflexivity.
Qed.

Lemma split_at_append (f : ascii -> bool) (a r : string) (c : ascii) :
  contains f a = false -> f c = true ->
  split_at f (a ++ String c r) = Some (a, c, r).
Proof.
  intros Ha Hc. induction a as [|x a IH].
  - cbn [String.append split_at]. rewrite Hc. reflexivity.
  - cbn [contains] in Ha. apply orb_false_iff in Ha. destruct Ha as [Hx Ha].
    cbn [String.append split_at]. rewrite Hx, (IH Ha). reflexivity.
Qed.

Lemma up_to_gt_append (a r : string) :
  contains (Ascii.eqb ">") a = false ->
  up_to_gt (a ++ ">" ++ r) = Some (a, r).
Proof.
  intros Ha. unfold up_to_gt. change (">" ++ r)%string with (String ">" r).
  rewrite (split_at_append (Ascii.eqb ">") a r ">" Ha eq_refl). reflexivity.
Qed.

Section Turns.

Context {P : Platform}.

Lemma turn_start_tag (c : klass) (x : string) (l : Listener) :
  parse_turn l ("<" ++ tag_of c ++ x) =
  match up_to_gt x with
  | Some (group2, rest) =>
      l1 <- tag_start l (tag_of c) ;;
      if slash_at_eol group2
      then l2 <- tag_end l1 (tag_of c) ;; Return (l2, rest)
      else Return (l1, rest)
  | None => Raise (RuntimeError "Unimplemented element")
  end.
Proof.
  destruct c; cbv -[up_to_gt tag_end slash_at_eol];
    destruct (up_to_gt x) as [[g2 rest]|]; reflexivity.
Qed.


Lemma turn_end_tag (c : klass) (x : string) (l : Listener) :
  parse_turn l ("</" ++ tag_of c ++ x) =
  match up_to_gt x with
  | Some (_, rest) => l1 <- tag_end l (tag_of c) ;; Return (l1, rest)
  | None => Raise (RuntimeError "Unimplemented element")
  end.
Proof.
  destruct c; cbv -[up_to_gt tag_end];
    destruct (up_to_gt x) as [[g2 rest]|]; reflexivity.
Qed.

Lemma no_lt_cons (a : ascii) (s : string) :
  no_lt (String a s) = true -> Ascii.eqb "<" a = false /\ no_lt s = true.
Proof.
  unfold no_lt. cbn [contains]. intros H. apply negb_true_iff in H.
  apply orb_false_iff in H. destruct H as [Ha Hs].
  rewrite Ascii.eqb_sym, Ha, Hs. split; reflexivity.
Qed.

Lemma no_lt_all_chars (s : string) :
  no_lt s = true -> all_chars (fun c => negb (Ascii.eqb c "<")) s = true.
Proof.
  induction s as [|a s IH]; [reflexivity|]. intros H.
  apply no_lt_cons in H. destruct H as [Ha Hs].
  cbn [all_chars]. rewrite Ascii.eqb_sym, Ha, (IH Hs). reflexivity.
Qed.

Lemma text_stop_stops (r : string) :
  text_stop r = true -> stops (fun c => negb (Ascii.eqb c "<")) r = true.
Proof.
  destruct r as [|a r]; [reflexivity|]. cbn [text_stop stops].
  intros H. apply andb_true_iff in H. destruct H as [H _]. rewrite H. reflexivity.
Qed.

Lemma doctype_after_text (s r : string) :
  no_lt s = true -> text_stop r = true ->
  drop_prefix "<!DOCTYPE" (snd (span is_space (s ++ r))) = None.
Proof.
  intros Hs Hr. induction s as [|a s IH].
  - destruct r as [|a r]; [reflexivity|].
    cbn [text_stop] in Hr. apply andb_true_iff in Hr. destruct Hr as [Ha Hc].
    apply Ascii.eqb_eq in Ha. subst a. cbn [String.append span].
    change (is_space "<") with false. cbn [snd drop_prefix].
    rewrite Ascii.eqb_refl. destruct r as [|c r]; [reflexivity|].
    apply negb_true_iff in Hc. rewrite Ascii.eqb_sym, Hc. reflexivity.
  - apply no_lt_cons in Hs. destruct Hs as [Ha Hs]. specialize (IH Hs).
    cbn [String.append span]. destruct (is_space a).
    + destruct (span is_space (s ++ r)). exact IH.
    + cbn [snd drop_prefix]. rewrite Ha. reflexivity.
Qed.

(** A run of text between tags is one text event. *)
Lemma turn_text (s r : string) (l : Listener) :
  s <> "" -> no_lt s = true -> text_stop r = true ->
  parse_turn l (s ++ r) = Return (Listener_text l s, r).
Proof.
  intros Hne Hs Hr. unfold parse_turn.
  assert (TEXT (s ++ r) = Some (s, r)) as HT.
  { unfold TEXT.
    rewrite (span_append _ s r (no_lt_all_chars s Hs) (text_stop_stops r Hr)).
    destruct s; [contradiction|reflexivity]. }
  assert (DOCTYPE_PATTERN (s ++ r) = None) as HD.
  { unfold DOCTYPE_PATTERN. rewrite (doctype_after_text s r Hs Hr). reflexivity. }
  rewrite HD, HT.
  destruct s as [|a s]; [contradiction|].
  apply no_lt_cons in Hs. destruct Hs as [Ha _].
  unfold COMMENT_START, XMLDECL_PATTERN, start_tag.
  cbn [String.append drop_prefix]. rewrite Ha. reflexivity.
Qed.

Lemma parse_turn_then (l l' : Listener) (s s' : string)
  (k : option (completion Listener)) :
  parse_turn l s = Return (l', s') -> parse s' l' = k -> parse s l = k.
Proof.
  intros H <-. destruct s as [|c s].
  - apply parse_turn_length in H. simpl in H. lia.
  - exact (parse_turn_parse _ _ _ H).
Qed.

Lemma parse_turn_stop (l : Listener) (s : string) (e : exception) :
  parse_turn l s = Raise e -> s <> "" -> parse s l = Some (Raise e).
Proof.
  intros H Hs. destruct s as [|a s]; [contradiction|].
  exact (parse_turn_raise l a s H).
Qed.

Lemma tag_start_tag_of (c : klass) (l : Listener) :
  tag_start l (tag_of c) =
  Return {| result := result l; open := open l ++ [PTag_new c] |}.
Proof.
  destruct c; reflexivity.
Qed.

Lemma tag_end_child (r : Value) (stack : list PTag) (top n : PTag)
  (name : string) :
  tag_end {| result := r; open := (stack ++ [top]) ++ [n] |} name =
  Return {| result := r; open := stack ++ [push_child n top] |}.
Proof.
  unfold tag_end. cbn [open result]. rewrite pop_snoc, length_app.
  cbn [length]. replace (length stack + 1 =? 0)%nat with false
    by (symmetry; apply Nat.eqb_neq; lia).
  rewrite update_last_snoc. reflexivity.
Qed.

End Turns.

(* ================================================================== *)
(** ** A written document and the tree that the parse builds *)

(** Induction on elements, with the elements inside at hand. *)
Fixpoint markup_induction (Q : markup -> Prop)
  (H : forall c content tail,
      Forall (fun p => Q (snd p)) content -> Q (Element c content tail))
  (m : markup) : Q m :=
  match m with
  | Element c content tail =>
      H c content tail
        ((fix go (l : list (string * markup)) : Forall (fun p => Q (snd p)) l :=
            match l with
            | [] => Forall_nil _
            | p :: r => Forall_cons p (markup_induction Q H (snd p)) (go r)
            end) content)
  end.

Lemma text_stop_render (m : markup) (rest : string) :
  text_stop (render m ++ rest) = true.
Proof.
  destruct m as [c content tail]. destruct c; reflexivity.
Qed.

Lemma text_stop_end_tag (c : klass) (rest : string) :
  text_stop ("</" ++ tag_of c ++ rest) = true.
Proof.
  reflexivity.
Qed.

Section Documents.

Context {P : Platform}.

(** A text written between tags, empty or not, ends as the text of the
    node on top of the stack. *)
Lemma parse_text (s rest : string) (r : Value) (stack : list PTag) (n : PTag) :
  no_lt s = true -> text_stop rest = true ->
  parse (s ++ rest) {| result := r; open := stack ++ [n] |} =
  parse rest {| result := r;
                open := stack ++ [Node (class_of n) (text_after (text n) s)
                                    (children n)] |}.
Proof.
  intros Hs Hr. destruct s as [|a s].
  - destruct n. reflexivity.
  - eapply parse_turn_then.
    + apply turn_text; [discriminate | exact Hs | exact Hr].
    + rewrite Listener_text_top. reflexivity.
Qed.

(** The scan of one element, on any stack, is the scan of its text and
    then [tag_end] on the stack with the node of the element on top. *)
Definition scans (m : markup) : Prop :=
  plain m = true ->
  forall (r : Value) (stack : list PTag) (rest : string),
    parse (render m ++ rest) {| result := r; open := stack |} =
    and_then
      (tag_end {| result := r; open := stack ++ [built m] |}
         (tag_of (class_of (built m))))
      rest.

Lemma parse_content (content : list (string * markup)) :
  Forall (fun p => scans (snd p)) content ->
  forallb (fun p => no_lt (fst p) && plain (snd p)) content = true ->
  forall (r : Value) (stack : list PTag) (c : klass) (t : option string)
    (cs : list PTag) (rest : string),
    parse (render_content render content ++ rest)
      {| result := r; open := stack ++ [Node c t cs] |} =
    parse rest
      {| result := r;
         open := stack ++
                 [Node c (fold_left text_after (map fst content) t)
                    (cs ++ map (fun p => built (snd p)) content)] |}.
Proof.
  induction 1 as [|[tx x] content Hx _ IH]; intros Hp r stack c t cs rest.
  - cbn. rewrite app_nil_r. reflexivity.
  - cbn [forallb fst snd] in Hp.
    apply andb_true_iff in Hp. destruct Hp as [Hp Hc].
    apply andb_true_iff in Hp. destruct Hp as [Htx Hpx].
    cbn [render_content map fst snd fold_left]. rewrite !append_assoc.
    rewrite (parse_text tx _ r stack (Node c t cs) Htx (text_stop_render x _)).
    cbn [class_of text children].
    rewrite (Hx Hpx r (stack ++ [Node c (text_after t tx) cs])).
    rewrite tag_end_child. unfold push_child.
    cbn [and_then class_of text children snd].
    rewrite (IH Hc). rewrite <- app_assoc. reflexivity.
Qed.

(** An end tag on any stack. *)
Lemma parse_end_tag (c : klass) (rest : string) (l : Listener) :
  parse ("</" ++ tag_of c ++ ">" ++ rest) l =
  and_then (tag_end l (tag_of c)) rest.
Proof.
  assert (parse_turn l ("</" ++ tag_of c ++ ">" ++ rest) =
          (l1 <- tag_end l (tag_of c) ;; Return (l1, rest))) as E.
  { rewrite turn_end_tag. reflexivity. }
  destruct (tag_end l (tag_of c)) as [l2|e]; cbn [bind and_then] in *.
  - exact (parse_turn_then _ _ E eq_refl).
  - exact (parse_turn_raise l "<" _ E).
Qed.

(** A start tag without attributes on any stack. *)
Lemma parse_start_tag (c : klass) (rest : string) (r : Value)
  (stack : list PTag) :
  parse ("<" ++ tag_of c ++ ">" ++ rest) {| result := r; open := stack |} =
  parse rest {| result := r; open := stack ++ [Node c None []] |}.
Proof.
  eapply parse_turn_then; [|reflexivity].
  rewrite turn_start_tag, tag_start_tag_of. reflexivity.
Qed.

Lemma render_scans (m : markup) : scans m.
Proof.
  induction m as [c content tail IH] using markup_induction.
  intros Hp r stack rest. cbn [plain] in Hp.
  apply andb_true_iff in Hp. destruct Hp as [Hc Ht].
  cbn [render built class_of]. rewrite !append_assoc.
  rewrite parse_start_tag, (parse_content IH Hc). cbn [app].
  transitivity
    (parse ("</" ++ tag_of c ++ ">" ++ rest)
       {| result := r;
          open := stack ++
                  [Node c
                     (text_after
                        (fold_left text_after (map fst content) None) tail)
                     (map (fun p => built (snd p)) content)] |}).
  - exact (parse_text tail _ r stack _ Ht (text_stop_end_tag c _)).
  - apply parse_end_tag.
Qed.

End Documents.

(* ================================================================== *)
(** ** Further properties of the parser *)

Lemma slash_at_eol_end (a : string) : slash_at_eol (a ++ "/") = true.
Proof.
  induction a as [|x a IH]; [reflexivity|].
  cbn [String.append slash_at_eol]. rewrite IH. apply orb_true_r.
Qed.

Lemma up_to_gt_none (x : string) :
  contains (Ascii.eqb ">") x = false -> up_to_gt x = None.
Proof.
  intros H. unfold up_to_gt.
  assert (split_at (Ascii.eqb ">") x = None) as ->; [|reflexivity].
  induction x as [|a x IH]; [reflexivity|].
  cbn [contains] in H. apply orb_false_iff in H. destruct H as [Ha Hx].
  cbn [split_at]. rewrite Ha, (IH Hx). reflexivity.
Qed.

Lemma comment_end_found (c rest : string) :
  after_first "-->" c = None ->
  after_first "-->" (c ++ "-->" ++ rest) = Some rest.
Proof.
  induction c as [|a c IH]; intros H; [reflexivity|].
  cbn [after_first] in H.
  destruct (drop_prefix "-->" (String a c)) eqn:E; [discriminate|].
  specialize (IH H).
  remember ("-->" ++ rest)%string as t eqn:Et.
  change (String a c ++ t)%string with (String a (c ++ t)).
  cbn [after_first].
  assert (drop_prefix "-->" (String a (c ++ t)) = None) as ->; [|exact IH].
  cbn [drop_prefix] in *. destruct (Ascii.eqb "-" a); [|reflexivity].
  destruct c as [|b c]; [subst t; reflexivity|]. cbn [String.append] in *.
  destruct (Ascii.eqb "-" b); [|reflexivity].
  destruct c as [|d c]; [subst t; reflexivity|]. cbn [String.append] in *.
  destruct (Ascii.eqb ">" d); [discriminate E | reflexivity].
Qed.

Section Further.

Context {P : Platform}.

Lemma turn_comment (y : string) (l : Listener) :
  parse_turn l ("<!--" ++ y) =
  match COMMENT_END y with
  | Some s2 => Return (l, s2)
  | None => Return (l, y)
  end.
Proof.
  reflexivity.
Qed.

(** A text outside every element is left out. *)
Lemma parse_text_outside (s rest : string) (r : Value) :
  no_lt s = true -> text_stop rest = true ->
  parse (s ++ rest) {| result := r; open := [] |} =
  parse rest {| result := r; open := [] |}.
Proof.
  intros Hs Hr. destruct s as [|a s]; [reflexivity|].
  eapply parse_turn_then; [|reflexivity].
  apply turn_text; [discriminate | exact Hs | exact Hr].
Qed.

Lemma parse_root (m : markup) (rest : string) (r : Value) :
  plain m = true ->
  parse (render m ++ rest) {| result := r; open := [] |} =
  match to_ruby (built m) with
  | Return v => parse rest {| result := v; open := [] |}
  | Raise e => Some (Raise e)
  end.
Proof.
  intros Hp. rewrite (render_scans m Hp). cbn [app]. unfold tag_end.
  cbn [open pop length Nat.eqb].
  destruct (to_ruby (built m)); reflexivity.
Qed.

(** X1.  The loop of [parse] comes to its end within one turn for each
    character of the text, whatever the text and the listener: with that
    many turns or more it gives an outcome, the one of [parse]. *)
Theorem parse_loop_ends (xml : string) (l : Listener) (fuel : nat) :
  String.length xml <= fuel ->
  exists r : completion Listener,
    parse_loop fuel l xml = Some r /\ parse xml l = Some r.
Proof.
  intros H. destruct (@parse_loop_enough _ fuel l xml H) as [r Hr].
  exists r. split; [exact Hr|]. unfold parse.
  rewrite <- Hr. apply parse_loop_fuel; [apply le_n | exact H].
Qed.

(** X2.  The registry: every class is found under the key that
    [inherited] derives from its name, the eleven keys are the recognized
    tag names, and a name is known when and only when it is one of these
    keys, in this spelling. *)
Theorem PTag_mappings_lookup :
  (forall c : klass, fetch String.eqb PTag_mappings (tag_of c) = Some c) /\
  mappings_keys =
  ["plist"; "dict"; "key"; "string"; "array"; "integer"; "true"; "false";
   "real"; "date"; "data"] /\
  (forall name : string,
      fetch String.eqb PTag_mappings name =
      find (fun c => String.eqb (tag_of c) name)
        [PList; PDict; PKey; PString; PArray; PInteger; PTrue; PFalse;
         PReal; PDate; PData]).
Proof.
  split; [|split].
  - intros c. destruct c; reflexivity.
  - reflexivity.
  - intros name. reflexivity.
Qed.

(** X3.  A written document whose texts hold no [<], with any such text
    before and after it, parses to the conversion of the tree of its
    elements: every element is a node of its class, the elements inside
    it are its children in their order, and its text is the last text
    written in it.  When that conversion raises, so does the parse. *)
Theorem parse_xml_render (m : markup) (before after : string) :
  plain m = true -> no_lt before = true -> no_lt after = true ->
  parse_xml (before ++ render m ++ after) = Some (to_ruby (built m)).
Proof.
  intros Hm Hb Ha. unfold parse_xml.
  change Listener_new with {| result := VNil; open := [] |}.
  rewrite (parse_text_outside before _ VNil Hb (text_stop_render m after)).
  rewrite (parse_root m after VNil Hm).
  destruct (to_ruby (built m)) as [v|e]; [|reflexivity].
  rewrite <- (append_nil_r after).
  rewrite (parse_text_outside after "" v Ha eq_refl). reflexivity.
Qed.

(** X4.  With two elements at the top, one after the other, the parse
    gives the value of the second, unless the conversion of the first
    raises: then the parse raises and the second is not read. *)
Theorem parse_xml_two_roots (m1 m2 : markup) :
  plain m1 = true -> plain m2 = true ->
  parse_xml (render m1 ++ render m2) =
  match to_ruby (built m1) with
  | Return _ => Some (to_ruby (built m2))
  | Raise e => Some (Raise e)
  end.
Proof.
  intros H1 H2. unfold parse_xml.
  change Listener_new with {| result := VNil; open := [] |}.
  rewrite (parse_root m1 (render m2) VNil H1).
  destruct (to_ruby (built m1)) as [v|e]; [|reflexivity].
  rewrite <- (append_nil_r (render m2)).
  rewrite (parse_root m2 "" v H2).
  destruct (to_ruby (built m2)); reflexivity.
Qed.

(** X5.  [Plist.parse_xml] on a text without any [<] that is not the
    name of an existing file returns [nil]: the constructor keeps the
    text itself, the scan passes over it, and nothing is raised. *)
Theorem parse_xml_no_markup (s : string) :
  File_read s = None ->
  no_lt s = true ->
  Plist_parse_xml (Text s) = Some (Return VNil).
Proof.
  intros Hf H. rewrite (Plist_parse_xml_text s Hf). unfold parse_xml.
  change Listener_new with {| result := VNil; open := [] |}.
  rewrite <- (append_nil_r s).
  rewrite (parse_text_outside s "" VNil H eq_refl). reflexivity.
Qed.

(** X6.  What stands between the name of a start tag and its [>] is not
    looked at, be it attributes or more letters of a longer name, as long
    as no line of it ends in a slash: the tag opens the element of the
    name. *)
Theorem parse_start_tag_attributes (c : klass) (attrs rest : string)
  (r : Value) (stack : list PTag) :
  contains (Ascii.eqb ">") attrs = false ->
  slash_at_eol attrs = false ->
  parse ("<" ++ tag_of c ++ attrs ++ ">" ++ rest)
    {| result := r; open := stack |} =
  parse ("<" ++ tag_of c ++ ">" ++ rest) {| result := r; open := stack |}.
Proof.
  intros Ha Hs. rewrite parse_start_tag.
  eapply parse_turn_then; [|reflexivity].
  rewrite turn_start_tag, (up_to_gt_append attrs rest Ha), Hs, tag_start_tag_of.
  reflexivity.
Qed.

(** X7.  A tag that closes itself, with or without attributes, parses as
    the start tag followed at once by the end tag. *)
Theorem parse_self_closing (c : klass) (attrs rest : string) (l : Listener) :
  contains (Ascii.eqb ">") attrs = false ->
  parse ("<" ++ tag_of c ++ attrs ++ "/>" ++ rest) l =
  parse ("<" ++ tag_of c ++ "></" ++ tag_of c ++ ">" ++ rest) l.
Proof.
  intros Ha. destruct l as [r stack].
  change ("></" ++ tag_of c ++ ">" ++ rest)%string
    with (">" ++ "</" ++ tag_of c ++ ">" ++ rest)%string.
  rewrite parse_start_tag, parse_end_tag.
  assert (parse_turn {| result := r; open := stack |}
            ("<" ++ tag_of c ++ (attrs ++ "/") ++ ">" ++ rest) =
          (l2 <- tag_end {| result := r; open := stack ++ [Node c None []] |}
                   (tag_of c) ;;
           Return (l2, rest))) as E.
  { assert (contains (Ascii.eqb ">") (attrs ++ "/") = false) as Ha'.
    { clear -Ha. induction attrs as [|x a IH]; [reflexivity|].
      cbn [String.append contains] in *.
      apply orb_false_iff in Ha. destruct Ha as [Hx Ha].
      rewrite Hx, (IH Ha). reflexivity. }
    rewrite turn_start_tag, (up_to_gt_append (attrs ++ "/") rest Ha').
    rewrite slash_at_eol_end, tag_start_tag_of. reflexivity. }
  rewrite append_assoc in E. cbn [String.append] in E.
  destruct (tag_end {| result := r; open := stack ++ [Node c None []] |}
              (tag_of c)) as [l2|e]; cbn [bind and_then] in *.
  - exact (parse_turn_then _ _ E eq_refl).
  - exact (parse_turn_raise _ "<" _ E).
Qed.

(** X8.  An end tag does not have to bear the name of the element that
    it closes: any registered name closes the node on top of the
    stack. *)
Theorem parse_end_tag_any_name (c1 c2 : klass) (rest : string) (l : Listener) :
  parse ("</" ++ tag_of c1 ++ ">" ++ rest) l =
  parse ("</" ++ tag_of c2 ++ ">" ++ rest) l.
Proof.
  rewrite !parse_end_tag. reflexivity.
Qed.

(** X9.  An end tag met while no node is open makes the parse raise:
    [pop] gives [nil], and [to_ruby] is called on it. *)
Theorem parse_xml_stray_end_tag (xml : string) (l : Listener) (c : klass)
  (attrs rest : string) :
  reaches (Listener_new, xml)
    (l, ("</" ++ tag_of c ++ attrs ++ ">" ++ rest)%string) ->
  open l = [] ->
  contains (Ascii.eqb ">") attrs = false ->
  parse_xml xml = Some (Raise (NoMethodError "nil" "to_ruby")).
Proof.
  intros Hr Ho Ha. unfold parse_xml.
  pose proof (reaches_parse Hr) as E. cbn [fst snd] in E. rewrite E.
  assert (parse_turn l ("</" ++ tag_of c ++ attrs ++ ">" ++ rest) =
          Raise (NoMethodError "nil" "to_ruby")) as T.
  { rewrite turn_end_tag, (up_to_gt_append attrs rest Ha).
    unfold tag_end. rewrite Ho. reflexivity. }
  rewrite (@parse_turn_stop _ _ _ _ T); [reflexivity | discriminate].
Qed.

(** X10.  A tag that the text ends in, its name read and no [>] after
    it, makes the parse raise "Unimplemented element". *)
Theorem parse_xml_cut_tag (xml : string) (l : Listener) (c : klass)
  (x : string) :
  reaches (Listener_new, xml) (l, ("<" ++ tag_of c ++ x)%string) ->
  contains (Ascii.eqb ">") x = false ->
  parse_xml xml = Some (Raise (RuntimeError "Unimplemented element")).
Proof.
  intros Hr Hx. unfold parse_xml.
  pose proof (reaches_parse Hr) as E. cbn [fst snd] in E. rewrite E.
  assert (parse_turn l ("<" ++ tag_of c ++ x) =
          Raise (RuntimeError "Unimplemented element")) as T.
  { rewrite turn_start_tag, (up_to_gt_none x Hx). reflexivity. }
  rewrite (@parse_turn_stop _ _ _ _ T); [reflexivity | discriminate].
Qed.

(** X11.  A comment is passed over, wherever it stands: no event
    reaches the listener, and the scan goes on after its [-->]. *)
Theorem parse_comment (c rest : string) (l : Listener) :
  after_first "-->" c = None ->
  parse ("<!--" ++ c ++ "-->" ++ rest) l = parse rest l.
Proof.
  intros H. eapply parse_turn_then; [|reflexivity].
  rewrite turn_comment. unfold COMMENT_END.
  rewrite (comment_end_found c rest H). reflexivity.
Qed.

(** X12.  A comment that is not closed is no error: the four characters
    that open it are passed over and what follows them is scanned as if
    they were not there. *)
Theorem parse_comment_not_closed (c : string) (l : Listener) :
  after_first "-->" c = None ->
  parse ("<!--" ++ c) l = parse c l.
Proof.
  intros H. eapply parse_turn_then; [|reflexivity].
  rewrite turn_comment. unfold COMMENT_END. rewrite H. reflexivity.
Qed.

End Further.

(* ================================================================== *)
(** ** Declarations *)

Lemma contains_append (f : ascii -> bool) (a b : string) :
  contains f (a ++ b) = contains f a || contains f b.
Proof.
  induction a as [|x a IH]; [reflexivity|].
  cbn [String.append contains]. rewrite IH, orb_assoc. reflexivity.
Qed.

Lemma quoted_closed (q : ascii) (name : string) :
  contains (Ascii.eqb q) name = false ->
  contains (Ascii.eqb newline) name = false ->
  quoted q (name ++ String q "") = Some name.
Proof.
  intros Hq Hn. induction name as [|c name IH].
  - cbn [String.append quoted space_or_Z]. rewrite Ascii.eqb_refl. reflexivity.
  - cbn [contains] in Hq, Hn.
    apply orb_false_iff in Hq. destruct Hq as [Hc Hq].
    apply orb_false_iff in Hn. destruct Hn as [Hd Hn].
    cbn [String.append quoted].
    rewrite (Ascii.eqb_sym c q), Hc, (Ascii.eqb_sym c newline), Hd.
    cbn [andb]. rewrite (IH Hq Hn). reflexivity.
Qed.

Lemma encoding_attribute_none (s : string) :
  drop_prefix "encoding=" s = None -> encoding_attribute s = None.
Proof.
  intros H. unfold encoding_attribute. rewrite H. reflexivity.
Qed.

Lemma after_first_none (p s : string) :
  after_first p s = None -> drop_prefix p s = None.
Proof.
  destruct s; cbn [after_first]; destruct (drop_prefix p _);
    [discriminate | reflexivity | discriminate | reflexivity].
Qed.

Lemma match_encoding_none (at_start : bool) (s : string) :
  after_first "encoding=" s = None -> match_encoding at_start s = None.
Proof.
  revert at_start. induction s as [|c s IH]; intros at_start H.
  - destruct at_start; reflexivity.
  - pose proof (after_first_none _ _ H) as H0.
    assert (after_first "encoding=" s = None) as Hs.
    { cbn [after_first] in H. rewrite H0 in H. exact H. }
    cbn [match_encoding].
    rewrite (encoding_attribute_none _ H0).
    rewrite (encoding_attribute_none _ (after_first_none _ _ Hs)).
    rewrite (IH false Hs). destruct at_start, (is_space c); reflexivity.
Qed.

(** The attribute of the encoding after the attribute of the version. *)
Lemma match_encoding_after_version (y : string) (g : option string) :
  encoding_attribute y = Some g ->
  match_encoding true ("version='1.0' " ++ y) = Some g.
Proof.
  intros H. cbn [String.append].
  repeat (cbn [match_encoding];
          match goal with
          | |- context [encoding_attribute (String ?a ?s)] =>
              change (encoding_attribute (String a s)) with (@None (option string))
          end;
          cbv iota;
          match goal with
          | |- context [is_space ?a] =>
              let b := eval vm_compute in (is_space a) in
              change (is_space a) with b
          end;
          cbv iota).
  cbn [match_encoding]. rewrite H. reflexivity.
Qed.

Lemma space_is_no_lt (a : ascii) :
  is_space a = true -> Ascii.eqb "<" a = false.
Proof.
  destruct a as [[] [] [] [] [] [] [] []]; vm_compute; congruence.
Qed.

Lemma doctype_end (decl rest : string) (d : ascii) :
  contains ends_doctype decl = false -> ends_doctype d = true ->
  exists a, split_at ends_doctype (snd (span is_space (decl ++ String d rest)))
            = Some (a, d, rest).
Proof.
  intros Hc Hd.
  assert (is_space d = false) as Hsd.
  { unfold ends_doctype in Hd. apply orb_true_iff in Hd.
    destruct Hd as [Hd|Hd]; apply Ascii.eqb_eq in Hd; subst d; reflexivity. }
  induction decl as [|c decl IH].
  - cbn [String.append span]. rewrite Hsd. cbn [snd split_at]. rewrite Hd. eauto.
  - cbn [contains] in Hc. apply orb_false_iff in Hc. destruct Hc as [Hc1 Hc2].
    cbn [String.append span]. destruct (is_space c).
    + destruct (IH Hc2) as [a Ha]. exists a.
      destruct (span is_space (decl ++ String d rest)). exact Ha.
    + cbn [snd]. exists (String c decl).
      change (String c (decl ++ String d rest))
        with (String c decl ++ String d rest)%string.
      apply split_at_append; [|exact Hd].
      cbn [contains]. rewrite Hc1, Hc2. reflexivity.
Qed.

Section Declarations.

Context {P : Platform}.

Lemma turn_xmldecl (decl rest : string) (l : Listener) :
  contains (Ascii.eqb "?") decl = false ->
  stops is_space decl = true ->
  stops (Ascii.eqb ">") rest = true ->
  parse_turn l ("<?xml " ++ decl ++ "?>" ++ rest) =
  (encoding <- parse_encoding_from_xml_declaration decl ;;
   match encoding with
   | None => Return (l, rest)
   | Some e => s2 <- force_encoding rest e ;; Return (l, s2)
   end).
Proof.
  intros Hq Hs Hr.
  assert (XMLDECL_PATTERN ("<?xml " ++ decl ++ "?>" ++ rest) =
          Some (decl, rest)) as E.
  { unfold XMLDECL_PATTERN.
    change (drop_prefix "<?xml" ("<?xml " ++ decl ++ "?>" ++ rest))
      with (Some (" " ++ (decl ++ "?>" ++ rest))%string).
    cbv beta iota.
    rewrite (span_append is_space " " (decl ++ "?>" ++ rest) eq_refl).
    - change ("?>" ++ rest)%string with (String "?" (">" ++ rest)).
      rewrite (split_at_append (Ascii.eqb "?") decl (">" ++ rest) "?" Hq eq_refl).
      rewrite (span_append (Ascii.eqb ">") ">" rest eq_refl Hr). reflexivity.
    - destruct decl as [|c decl]; [reflexivity | exact Hs]. }
  unfold parse_turn.
  change (COMMENT_START ("<?xml " ++ decl ++ "?>" ++ rest)) with (@None string).
  rewrite E. reflexivity.
Qed.

(** X13.  An XML declaration that names no encoding is passed over: no
    event reaches the listener, and the scan goes on after its [?>]. *)
Theorem parse_xml_declaration (decl rest : string) (l : Listener) :
  contains (Ascii.eqb "?") decl = false ->
  stops is_space decl = true ->
  stops (Ascii.eqb ">") rest = true ->
  after_first "encoding=" decl = None ->
  parse ("<?xml " ++ decl ++ "?>" ++ rest) l = parse rest l.
Proof.
  intros Hq Hs Hr He. eapply parse_turn_then; [|reflexivity].
  rewrite (turn_xmldecl decl rest l Hq Hs Hr).
  unfold parse_encoding_from_xml_declaration.
  rewrite (match_encoding_none true decl He). reflexivity.
Qed.

(** X14.  An encoding name that [Encoding.find] does not know is no
    error: the [ArgumentError] is rescued, and the declaration is passed
    over like one without an encoding. *)
Theorem parse_xml_declaration_unknown_encoding (name rest msg : string)
  (l : Listener) :
  contains (Ascii.eqb double_quote) name = false ->
  contains (Ascii.eqb newline) name = false ->
  contains (Ascii.eqb "?") name = false ->
  stops (Ascii.eqb ">") rest = true ->
  Encoding_find (Some name) = Raise (ArgumentError msg) ->
  parse ("<?xml version='1.0' encoding=" ++ String double_quote name
         ++ String double_quote "?>" ++ rest) l =
  parse rest l.
Proof.
  intros Hd Hn Hq Hr Hf. eapply parse_turn_then; [|reflexivity].
  set (decl := ("version='1.0' encoding=" ++ String double_quote
                  (name ++ String double_quote ""))%string).
  assert (contains (Ascii.eqb "?") decl = false) as H1.
  { unfold decl. rewrite contains_append. cbn [contains orb].
    rewrite contains_append, Hq. reflexivity. }
  assert (match_encoding true decl = Some (Some name)) as M.
  { apply (match_encoding_after_version
             ("encoding=" ++ String double_quote (name ++ String double_quote ""))).
    unfold encoding_attribute. cbn [String.append drop_prefix].
    rewrite !Ascii.eqb_refl.
    rewrite (quoted_closed double_quote name Hd Hn). reflexivity. }
  pose proof (turn_xmldecl decl rest l H1 eq_refl Hr) as T.
  unfold parse_encoding_from_xml_declaration in T. rewrite M, Hf in T.
  unfold decl in T. cbn [String.append] in T. rewrite !append_assoc in T.
  exact T.
Qed.

(** X15.  With the encoding in single quotes, group 1 of the match is
    [nil], whatever the name, and [Encoding.find] is called on [nil]:
    when that raises anything but an [ArgumentError], the parse
    raises it. *)
Theorem parse_xml_declaration_single_quotes (name rest : string)
  (e : exception) (l : Listener) :
  contains (Ascii.eqb "'") name = false ->
  contains (Ascii.eqb newline) name = false ->
  contains (Ascii.eqb "?") name = false ->
  stops (Ascii.eqb ">") rest = true ->
  Encoding_find None = Raise e ->
  (forall msg, e <> ArgumentError msg) ->
  parse ("<?xml version='1.0' encoding='" ++ name ++ "'?>" ++ rest) l =
  Some (Raise e).
Proof.
  intros Hd Hn Hq Hr Hf He. apply parse_turn_stop; [|discriminate].
  set (decl := ("version='1.0' encoding='" ++ name ++ "'")%string).
  assert (contains (Ascii.eqb "?") decl = false) as H1.
  { unfold decl. rewrite contains_append. cbn [contains orb].
    rewrite contains_append, Hq. reflexivity. }
  assert (match_encoding true decl = Some None) as M.
  { apply (match_encoding_after_version ("encoding='" ++ name ++ "'")).
    unfold encoding_attribute. cbn [String.append drop_prefix].
    rewrite !Ascii.eqb_refl.
    change (Ascii.eqb "'" double_quote) with false. cbv iota.
    rewrite (quoted_closed "'" name Hd Hn). reflexivity. }
  pose proof (turn_xmldecl decl rest l H1 eq_refl Hr) as T.
  unfold parse_encoding_from_xml_declaration in T. rewrite M, Hf in T.
  unfold decl in T. cbn [String.append] in T. rewrite !append_assoc in T.
  destruct e; try exact T. exfalso. exact (He _ eq_refl).
Qed.

(** X22.  A declaration whose encoding [Encoding.find] knows puts the
    text left under that encoding.  When the scan of that text under the
    encoding raises, the parse raises that error, before any other
    event; when it does not, the scan goes on after the declaration. *)
Theorem parse_xml_declaration_encoding (name : string) (c : ascii)
  (rest : string) (enc : Encoding) (l : Listener) :
  contains (Ascii.eqb double_quote) name = false ->
  contains (Ascii.eqb newline) name = false ->
  contains (Ascii.eqb "?") name = false ->
  stops (Ascii.eqb ">") (String c rest) = true ->
  Encoding_find (Some name) = Return enc ->
  parse ("<?xml version='1.0' encoding=" ++ String double_quote name
         ++ String double_quote "?>" ++ String c rest) l =
  match Encoding_scan_error enc (String c rest) with
  | Some e => Some (Raise e)
  | None => parse (String c rest) l
  end.
Proof.
  intros Hd Hn Hq Hr Hf.
  set (decl := ("version='1.0' encoding=" ++ String double_quote
                  (name ++ String double_quote ""))%string).
  assert (contains (Ascii.eqb "?") decl = false) as H1.
  { unfold decl. rewrite contains_append. cbn [contains orb].
    rewrite contains_append, Hq. reflexivity. }
  assert (match_encoding true decl = Some (Some name)) as M.
  { apply (match_encoding_after_version
             ("encoding=" ++ String double_quote (name ++ String double_quote ""))).
    unfold encoding_attribute. cbn [String.append drop_prefix].
    rewrite !Ascii.eqb_refl.
    rewrite (quoted_closed double_quote name Hd Hn). reflexivity. }
  pose proof (turn_xmldecl decl (String c rest) l H1 eq_refl Hr) as T.
  unfold parse_encoding_from_xml_declaration in T. rewrite M, Hf in T.
  unfold decl in T. cbn [String.append bind] in T. rewrite !append_assoc in T.
  unfold force_encoding in T.
  destruct (Encoding_scan_error enc (String c rest)) as [e|]; cbn [bind] in T.
  - apply parse_turn_stop; [exact T | discriminate].
  - eapply parse_turn_then; [exact T | reflexivity].
Qed.

Lemma turn_doctype (ws decl rest : string) (d : ascii) (l : Listener) :
  all_chars is_space ws = true ->
  starts_with is_space decl = true ->
  contains ends_doctype decl = false ->
  ends_doctype d = true ->
  parse_turn l (ws ++ "<!DOCTYPE" ++ decl ++ String d rest) = Return (l, rest).
Proof.
  intros Hw Hs Hc Hd.
  assert (DOCTYPE_PATTERN (ws ++ "<!DOCTYPE" ++ decl ++ String d rest) =
          Some rest) as E.
  { unfold DOCTYPE_PATTERN.
    rewrite (span_append is_space ws
               ("<!DOCTYPE" ++ decl ++ String d rest) Hw eq_refl). cbn [snd].
    change (drop_prefix "<!DOCTYPE" ("<!DOCTYPE" ++ decl ++ String d rest))
      with (Some (decl ++ String d rest)%string).
    cbv beta iota.
    destruct (doctype_end decl rest d Hc Hd) as [a Ha].
    destruct decl as [|c decl]; [discriminate Hs|].
    cbn [starts_with] in Hs. cbn [String.append span] in *. rewrite Hs in *.
    destruct (span is_space (decl ++ String d rest)) as [w s2].
    cbn [snd] in Ha. unfold ends_doctype in Ha. rewrite Ha. reflexivity. }
  unfold parse_turn. rewrite E.
  destruct ws as [|a ws].
  - reflexivity.
  - cbn [all_chars] in Hw. apply andb_true_iff in Hw. destruct Hw as [Ha _].
    unfold COMMENT_START, XMLDECL_PATTERN.
    cbn [String.append drop_prefix]. rewrite (space_is_no_lt a Ha). reflexivity.
Qed.

(** X16.  A document type declaration, with the white space before it,
    is passed over up to its first [[] or [>]: no event reaches the
    listener. *)
Theorem parse_doctype (ws decl rest : string) (d : ascii) (l : Listener) :
  all_chars is_space ws = true ->
  starts_with is_space decl = true ->
  contains ends_doctype decl = false ->
  ends_doctype d = true ->
  parse (ws ++ "<!DOCTYPE" ++ decl ++ String d rest) l = parse rest l.
Proof.
  intros Hw Hs Hc Hd. eapply parse_turn_then; [|reflexivity].
  apply turn_doctype; assumption.
Qed.

Lemma stops_gt_doctype (ws x : string) :
  all_chars is_space ws = true ->
  stops (Ascii.eqb ">") (ws ++ "<!DOCTYPE" ++ x) = true.
Proof.
  destruct ws as [|a ws]; [reflexivity|]. cbn [all_chars String.append stops].
  intros H. apply andb_true_iff in H. destruct H as [Ha _]. revert Ha. clear.
  destruct a as [[] [] [] [] [] [] [] []]; vm_compute; congruence.
Qed.

(** X21.  A document with the usual prolog, an XML declaration without an
    encoding and a document type declaration, parses to the conversion
    of the tree of its root element. *)
Theorem parse_xml_with_prolog (decl ws dt before after : string) (m : markup) :
  contains (Ascii.eqb "?") decl = false ->
  stops is_space decl = true ->
  after_first "encoding=" decl = None ->
  all_chars is_space ws = true ->
  starts_with is_space dt = true ->
  contains ends_doctype dt = false ->
  plain m = true -> no_lt before = true -> no_lt after = true ->
  parse_xml ("<?xml " ++ decl ++ "?>" ++ ws ++ "<!DOCTYPE" ++ dt ++ ">"
             ++ before ++ render m ++ after) =
  Some (to_ruby (built m)).
Proof.
  intros Hq Hs He Hw Hd Hc Hm Hb Ha. unfold parse_xml.
  change Listener_new with {| result := VNil; open := [] |}.
  assert (parse ("<?xml " ++ decl ++ "?>" ++ ws ++ "<!DOCTYPE" ++ dt ++ ">"
                 ++ before ++ render m ++ after)
            {| result := VNil; open := [] |} =
          parse (before ++ render m ++ after)
            {| result := VNil; open := [] |}) as ->.
  { eapply parse_turn_then.
    - rewrite (turn_xmldecl decl _ _ Hq Hs (stops_gt_doctype ws _ Hw)).
      unfold parse_encoding_from_xml_declaration.
      rewrite (match_encoding_none true decl He). reflexivity.
    - eapply parse_turn_then; [|reflexivity].
      exact (turn_doctype ws dt (before ++ render m ++ after) ">" _
               Hw Hd Hc eq_refl). }
  rewrite (parse_text_outside before _ VNil Hb (text_stop_render m after)).
  rewrite (parse_root m after VNil Hm).
  destruct (to_ruby (built m)) as [v|e]; [|reflexivity].
  rewrite <- (append_nil_r after).
  rewrite (parse_text_outside after "" v Ha eq_refl). reflexivity.
Qed.

End Declarations.

(* ================================================================== *)
(** ** Arrays and dictionaries of any children *)

Section Containers.

Context {P : Platform}.

Lemma collect_items (cs : list PTag) (vs : list Value) :
  collect to_ruby cs = Return vs <->
  Forall2 (fun c v => to_ruby c = Return v) cs vs.
Proof.
  revert vs. induction cs as [|c cs IH]; intros vs; cbn [collect].
  - split; intros H.
    + injection H as <-. constructor.
    + inversion H. reflexivity.
  - destruct (to_ruby c) as [v|e] eqn:Ec; cbn [bind].
    + destruct (collect to_ruby cs) as [ws|e] eqn:Ecs; cbn [bind].
      * split; intros H.
        -- injection H as <-. constructor; [exact Ec | apply IH; reflexivity].
        -- inversion H as [|? v' ? ws' Hv Hws]; subst.
           apply IH in Hws. congruence.
      * split; intros H; [discriminate|].
        inversion H as [|? v' ? ws' Hv Hws]; subst.
        apply IH in Hws. discriminate.
    + split; intros H; [discriminate|].
      inversion H as [|? v' ? ws' Hv Hws]; subst. congruence.
Qed.

(** X17.  An [array] node converts to the array of the converted values
    of its children, one for each child and in their order, and to
    nothing else: it returns exactly when every child converts. *)
Theorem PArray_to_ruby_items (t : option string) (cs : list PTag)
  (vs : list Value) :
  to_ruby (Node PArray t cs) = Return (VArray vs) <->
  Forall2 (fun c v => to_ruby c = Return v) cs vs.
Proof.
  rewrite <- collect_items. cbn [to_ruby]. unfold PArray_to_ruby.
  destruct (collect to_ruby cs) as [ws|e]; cbn [bind].
  - split; intros H; [injection H as <- | injection H as <-]; reflexivity.
  - split; discriminate.
Qed.

(** X18.  An [array] node raises what its first child that raises does;
    the children after that one are not converted. *)
Theorem PArray_to_ruby_raises (t : option string) (pre post : list PTag)
  (c : PTag) (vs : list Value) (e : exception) :
  Forall2 (fun c v => to_ruby c = Return v) pre vs ->
  to_ruby c = Raise e ->
  to_ruby (Node PArray t (pre ++ c :: post)) = Raise e.
Proof.
  intros Hpre Hc. cbn [to_ruby]. unfold PArray_to_ruby.
  assert (collect to_ruby (pre ++ c :: post) = Raise e) as ->; [|reflexivity].
  induction Hpre as [|x v pre vs Hx _ IH]; cbn [app collect].
  - rewrite Hc. reflexivity.
  - rewrite Hx, IH. reflexivity.
Qed.

(** X19.  A [dict] node raises what its first child that raises does, be
    that child in the place of a key or of a value. *)
Theorem PDict_to_ruby_raises (t : option string) (pre post : list PTag)
  (c : PTag) (vs : list Value) (e : exception) :
  Forall2 (fun c v => to_ruby c = Return v) pre vs ->
  to_ruby c = Raise e ->
  to_ruby (Node PDict t (pre ++ c :: post)) = Raise e.
Proof.
  intros Hpre Hc. cbn [to_ruby]. unfold PDict_to_ruby.
  assert (forall d key, PDict_each to_ruby (pre ++ c :: post) d key = Raise e)
    as ->; [|reflexivity].
  induction Hpre as [|x v pre vs Hx _ IH]; intros d key; cbn [app PDict_each].
  - rewrite Hc. destruct (is_nil key); reflexivity.
  - rewrite Hx. destruct (is_nil key); cbn [bind]; apply IH.
Qed.

(** X20.  In a [dict], a child in the place of a key that converts to
    [nil] is passed over: the child after it is taken for the key. *)
Theorem PDict_to_ruby_nil_key (t : option string) (pairs : list (PTag * PTag))
  (c : PTag) (rest : list PTag) :
  Forall (fun kv => class_of (fst kv) = PKey) pairs ->
  to_ruby c = Return VNil ->
  to_ruby (Node PDict t (alternate pairs ++ c :: rest)) =
  to_ruby (Node PDict t (alternate pairs ++ rest)).
Proof.
  intros Hp Hc. cbn [to_ruby]. unfold PDict_to_ruby.
  assert (forall d, PDict_each to_ruby (alternate pairs ++ c :: rest) d VNil =
                    PDict_each to_ruby (alternate pairs ++ rest) d VNil)
    as ->; [|reflexivity].
  induction Hp as [|[k n] pairs Hk _ IH]; intros d.
  - cbn [alternate app PDict_each is_nil]. rewrite Hc. reflexivity.
  - cbn [alternate app PDict_each is_nil fst] in *.
    rewrite (to_ruby_key k Hk). cbn [bind PDict_each is_nil].
    destruct (to_ruby n) as [v|e]; cbn [bind]; [apply IH | reflexivity].
Qed.

End Containers.
(* ================================================================== *)
(** ** The program at work on the reference platform *)

Example parse_xml_document :
  parse_xml
    "<?xml version='1.0'?>
<!DOCTYPE plist PUBLIC '-//Apple//DTD PLIST 1.0//EN' 'PropertyList-1.0.dtd'>
<plist version='1.0'>
<!-- settings -->
<dict>
  <key>name</key><string>a &amp; b</string>
  <key>size</key><integer>42</integer>
  <key>tags</key><array><true/><false/><integer>-7</integer></array>
  <key>when</key><date>2001-02-03T04:05:06Z</date>
  <key>blob</key><data>aGVs
bG8=</data>
</dict>
</plist>
" =
  Some (Return (VHash
    [(VStr "name", VStr "a & b");
     (VStr "size", VInt 42);
     (VStr "tags", VArray [VBool true; VBool false; VInt (-7)]);
     (VStr "when", VDateTime "2001-02-03T04:05:06Z");
     (VStr "blob", VStringIO {| io_string := "hello"; io_pos := 0 |})])).
Proof.
  reflexivity.
Qed.

(** The example of the dictionary: insertion order, and the last write
    to a key wins in the place of the first. *)
Example PDict_to_ruby_example :
  to_ruby (Node PDict None
             [Node PKey (Some "a") []; Node PString (Some "x") [];
              Node PKey (Some "b") []; Node PInteger (Some "2") []]) =
  Return (VHash [(VStr "a", VStr "x"); (VStr "b", VInt 2)]) /\
  to_ruby (Node PDict None
             [Node PKey (Some "a") []; Node PString (Some "x") [];
              Node PKey (Some "b") []; Node PInteger (Some "2") [];
              Node PKey (Some "a") []; Node PTrue None []]) =
  Return (VHash [(VStr "a", VBool true); (VStr "b", VInt 2)]).
Proof.
  split; reflexivity.
Qed.

(** The root wrapper gives its first child, or [nil]; an element of
    text without text gives the empty string. *)
Example parse_xml_wrapper_and_empty_text :
  parse_xml "<plist/>" = Some (Return VNil) /\
  parse_xml "<plist><true/><false/></plist>" = Some (Return (VBool true)) /\
  parse_xml "<string/>" = Some (Return (VStr "")) /\
  parse_xml "<key><true/></key>" = Some (Return (VStr "")).
Proof.
  repeat split; reflexivity.
Qed.

(** C1: the text ends inside [<dict>], two nodes are open, and
    [parse_xml] returns [nil]; after a first complete value it returns
    that value. *)
Lemma parse_xml_unterminated_returns :
  parse "<plist><dict>" Listener_new =
  Some (Return {| result := VNil;
                  open := [Node PList None []; Node PDict None []] |}) /\
  parse_xml "<plist><dict>" = Some (Return VNil) /\
  parse_xml "<true/><dict>" = Some (Return (VBool true)).
Proof.
  repeat split; reflexivity.
Qed.

Lemma parse_xml_unterminated_witness :
  parse "<plist><dict>" Listener_new =
  Some (Return {| result := VNil;
                  open := [Node PList None []; Node PDict None []] |}) /\
  [Node PList None []; Node PDict None []] <> [] /\
  (forall l' s', reaches (Listener_new, "<plist><dict>") (l', s') ->
                 open l' = [] -> l' = Listener_new) /\
  parse_xml "<plist><dict>" = Some (Return (result Listener_new)) /\
  parse_xml "<plist><dict>" = Some (Return VNil).
Proof.
  assert (forall l' s', reaches (Listener_new, "<plist><dict>") (l', s') ->
                        open l' = [] -> l' = Listener_new) as Hroot.
  { assert (parse_turn Listener_new "<plist><dict>" =
            Return ({| result := VNil; open := [Node PList None []] |}, "<dict>"))
      as E1 by reflexivity.
    assert (parse_turn {| result := VNil; open := [Node PList None []] |} "<dict>" =
            Return ({| result := VNil;
                       open := [Node PList None []; Node PDict None []] |}, ""))
      as E2 by reflexivity.
    intros l' s' H Ho.
    inversion H as [|? ? ? ? ? T1 R1]; subst; [reflexivity|].
    pose proof (eq_trans (eq_sym E1) T1) as T1'. injection T1' as <-.
    inversion R1 as [|? ? ? ? ? T2 R2]; subst; [discriminate Ho|].
    pose proof (eq_trans (eq_sym E2) T2) as T2'. injection T2' as <-.
    inversion R2; subst. discriminate Ho. }
  assert ([Node PList None []; Node PDict None []] <> []) as Hopen
    by discriminate.
  split; [reflexivity|]. split; [exact Hopen|]. split; [exact Hroot|].
  split.
  - exact (proj1 (@parse_xml_unterminated reference "<plist><dict>"
                    {| result := VNil;
                       open := [Node PList None []; Node PDict None []] |}
                    eq_refl Hopen)).
  - exact (proj2 (@parse_xml_unterminated reference "<plist><dict>"
                    {| result := VNil;
                       open := [Node PList None []; Node PDict None []] |}
                    eq_refl Hopen) Hroot).
Defined.

(** C2: the text [abc] of an [integer] node converts to 0, and the parse
    returns it. *)
Lemma PInteger_to_ruby_non_numeric_returns :
  to_ruby (Node PInteger (Some "abc") []) = Return (VInt 0) /\
  parse_xml "<integer>abc</integer>" = Some (Return (VInt 0)).
Proof.
  split; reflexivity.
Qed.

Lemma PInteger_to_ruby_non_numeric_witness :
  non_numeric (Some "n/a") = true /\
  to_ruby (Node PInteger (Some "n/a") []) = Return (VInt 0).
Proof.
  split; [reflexivity|].
  apply (@PInteger_to_ruby_non_numeric reference (Some "n/a") []). reflexivity.
Defined.

(** C3: a [dict] with a key and no value for it converts to the hash of
    the pairs before it. *)
Lemma PDict_to_ruby_odd_returns :
  to_ruby (Node PDict None [Node PKey (Some "a") []]) = Return (VHash []) /\
  parse_xml "<dict><key>a</key><string>x</string><key>b</key></dict>" =
  Some (Return (VHash [(VStr "a", VStr "x")])).
Proof.
  split; reflexivity.
Qed.

Lemma PDict_to_ruby_trailing_key_witness :
  Forall (fun kv => class_of (fst kv) = PKey)
    [(Node PKey (Some "a") [], Node PString (Some "x") [])] /\
  class_of (Node PKey (Some "b") []) = PKey /\
  to_ruby (Node PDict None
             (alternate [(Node PKey (Some "a") [], Node PString (Some "x") [])]
              ++ [Node PKey (Some "b") []])) =
  to_ruby (Node PDict None
             (alternate [(Node PKey (Some "a") [], Node PString (Some "x") [])])).
Proof.
  split; [repeat constructor|]. split; [reflexivity|].
  apply (@PDict_to_ruby_trailing_key reference None
           [(Node PKey (Some "a") [], Node PString (Some "x") [])]
           (Node PKey (Some "b") []));
    [repeat constructor | reflexivity].
Defined.

(** C4: two runs of text for one node leave the second run. *)
Lemma Listener_text_not_appended :
  fold_left Listener_text ["a"; "b"]
    {| result := VNil; open := [PTag_new PString] |} =
  {| result := VNil; open := [Node PString (Some "b") []] |} /\
  parse_xml "<string>a<!-- c -->b</string>" = Some (Return (VStr "b")).
Proof.
  split; reflexivity.
Qed.



(** C7 at the example of the dictionary. *)
Lemma PDict_to_ruby_pairs_witness :
  Forall (fun kv => class_of (fst kv) = PKey)
    [(Node PKey (Some "a") [], Node PString (Some "x") []);
     (Node PKey (Some "b") [], Node PInteger (Some "2") [])] /\
  Forall2 (fun kv v => to_ruby (snd kv) = Return v)
    [(Node PKey (Some "a") [], Node PString (Some "x") []);
     (Node PKey (Some "b") [], Node PInteger (Some "2") [])]
    [VStr "x"; VInt 2] /\
  exists dict : list (Value * Value),
    to_ruby (Node PDict None
               [Node PKey (Some "a") []; Node PString (Some "x") [];
                Node PKey (Some "b") []; Node PInteger (Some "2") []]) =
    Return (VHash dict) /\
    map fst dict = [VStr "a"; VStr "b"] /\
    forall k : string,
      fetch eql dict (VStr k) = last_value [("a", VStr "x"); ("b", VInt 2)] k.
Proof.
  split; [repeat constructor|]. split; [repeat constructor|].
  apply (@PDict_to_ruby_pairs reference None
           [(Node PKey (Some "a") [], Node PString (Some "x") []);
            (Node PKey (Some "b") [], Node PInteger (Some "2") [])]
           [VStr "x"; VInt 2]); repeat constructor.
Defined.

(** C8: the bytes [hello] are no serialized object. *)
Lemma PData_to_ruby_fallback_witness :
  Marshal_load (Base64_decode64 (gsub_space "aGVs bG8=")) = None /\
  to_ruby (Node PData (Some "aGVs bG8=") []) =
  Return (VStringIO {| io_string := "hello"; io_pos := 0 |}).
Proof.
  split; [reflexivity|].
  apply (@PData_to_ruby_fallback reference "aGVs bG8=" []). reflexivity.
Defined.

(* ================================================================== *)
(** ** The further properties at work on the reference platform *)

Lemma parse_loop_ends_witness :
  String.length "<true/>" <= 7 /\
  exists r : completion Listener,
    parse_loop 7 Listener_new "<true/>" = Some r /\
    parse "<true/>" Listener_new = Some r.
Proof.
  split; [apply le_n|].
  apply (@parse_loop_ends reference "<true/>" Listener_new 7). apply le_n.
Defined.

Lemma parse_xml_render_witness :
  plain (Element PDict
           [(" ", Element PKey [] "a"); ("", Element PString [] "x")] " ")
  = true /\
  no_lt " " = true /\ no_lt "" = true /\
  parse_xml "  <dict> <key>a</key><string>x</string> </dict>" =
  Some (Return (VHash [(VStr "a", VStr "x")])).
Proof.
  split; [reflexivity|]. split; [reflexivity|]. split; [reflexivity|].
  apply (@parse_xml_render reference
           (Element PDict
              [(" ", Element PKey [] "a"); ("", Element PString [] "x")] " ")
           "  " ""); reflexivity.
Defined.

Lemma parse_xml_two_roots_witness :
  plain (Element PTrue [] "") = true /\
  plain (Element PInteger [] "7") = true /\
  parse_xml "<true></true><integer>7</integer>" = Some (Return (VInt 7)).
Proof.
  split; [reflexivity|]. split; [reflexivity|].
  apply (@parse_xml_two_roots reference
           (Element PTrue [] "") (Element PInteger [] "7")); reflexivity.
Defined.

Lemma parse_xml_no_markup_witness :
  File_read " no tags here " = None /\
  no_lt " no tags here " = true /\
  Plist_parse_xml (Text " no tags here ") = Some (Return VNil).
Proof.
  split; [reflexivity|]. split; [reflexivity|].
  apply (@parse_xml_no_markup reference " no tags here "); reflexivity.
Defined.

Lemma parse_start_tag_attributes_witness :
  contains (Ascii.eqb ">") " version='1.0'" = false /\
  slash_at_eol " version='1.0'" = false /\
  parse "<plist version='1.0'><true/></plist>" Listener_new =
  parse "<plist><true/></plist>" Listener_new.
Proof.
  split; [reflexivity|]. split; [reflexivity|].
  apply (@parse_start_tag_attributes reference PList " version='1.0'"
           "<true/></plist>" VNil []); reflexivity.
Defined.

Lemma parse_self_closing_witness :
  contains (Ascii.eqb ">") " id='1' " = false /\
  parse "<dict id='1' /><true/>" Listener_new =
  parse "<dict></dict><true/>" Listener_new.
Proof.
  split; [reflexivity|].
  apply (@parse_self_closing reference PDict " id='1' " "<true/>" Listener_new).
  reflexivity.
Defined.

Lemma parse_xml_stray_end_tag_witness :
  reaches (Listener_new, "<true/></dict>")
    ({| result := VBool true; open := [] |}, "</dict>") /\
  open {| result := VBool true; open := [] |} = [] /\
  contains (Ascii.eqb ">") "" = false /\
  parse_xml "<true/></dict>" = Some (Raise (NoMethodError "nil" "to_ruby")).
Proof.
  assert (reaches (Listener_new, "<true/></dict>")
            ({| result := VBool true; open := [] |}, "</dict>")) as Hr.
  { eapply reaches_turn; [reflexivity | apply reaches_here]. }
  split; [exact Hr|]. split; [reflexivity|]. split; [reflexivity|].
  exact (@parse_xml_stray_end_tag reference "<true/></dict>"
           {| result := VBool true; open := [] |} PDict "" "" Hr eq_refl eq_refl).
Defined.

Lemma parse_xml_cut_tag_witness :
  reaches (Listener_new, "<plist><dict id='1'")
    ({| result := VNil; open := [Node PList None []] |}, "<dict id='1'") /\
  contains (Ascii.eqb ">") " id='1'" = false /\
  parse_xml "<plist><dict id='1'" =
  Some (Raise (RuntimeError "Unimplemented element")).
Proof.
  assert (reaches (Listener_new, "<plist><dict id='1'")
            ({| result := VNil; open := [Node PList None []] |}, "<dict id='1'"))
    as Hr.
  { eapply reaches_turn; [reflexivity | apply reaches_here]. }
  split; [exact Hr|]. split; [reflexivity|].
  exact (@parse_xml_cut_tag reference "<plist><dict id='1'"
           {| result := VNil; open := [Node PList None []] |} PDict " id='1'"
           Hr eq_refl).
Defined.

Lemma parse_comment_witness :
  after_first "-->" " a - b -- c " = None /\
  parse "<!-- a - b -- c --><true/>" Listener_new = parse "<true/>" Listener_new.
Proof.
  split; [reflexivity|].
  apply (@parse_comment reference " a - b -- c " "<true/>" Listener_new).
  reflexivity.
Defined.

Lemma parse_comment_not_closed_witness :
  after_first "-->" " <true/>" = None /\
  parse "<!-- <true/>" Listener_new = parse " <true/>" Listener_new.
Proof.
  split; [reflexivity|].
  apply (@parse_comment_not_closed reference " <true/>" Listener_new).
  reflexivity.
Defined.

Lemma parse_xml_declaration_witness :
  contains (Ascii.eqb "?") "version='1.0'" = false /\
  stops is_space "version='1.0'" = true /\
  stops (Ascii.eqb ">") "<true/>" = true /\
  after_first "encoding=" "version='1.0'" = None /\
  parse "<?xml version='1.0'?><true/>" Listener_new =
  parse "<true/>" Listener_new.
Proof.
  repeat (split; [reflexivity|]).
  apply (@parse_xml_declaration reference "version='1.0'" "<true/>"
           Listener_new); reflexivity.
Defined.

Lemma parse_xml_declaration_encoding_witness :
  contains (Ascii.eqb double_quote) "UTF-16LE" = false /\
  contains (Ascii.eqb newline) "UTF-16LE" = false /\
  contains (Ascii.eqb "?") "UTF-16LE" = false /\
  stops (Ascii.eqb ">") "<foo/>" = true /\
  Encoding_find (Some "UTF-16LE") = Return "utf-16le" /\
  parse ("<?xml version='1.0' encoding=" ++ String double_quote "UTF-16LE"
         ++ String double_quote "?>" ++ "<foo/>") Listener_new =
  Some (Raise (CompatibilityError
    "incompatible encoding regexp match (US-ASCII regexp with UTF-16LE string)")).
Proof.
  repeat (split; [reflexivity|]).
  exact (@parse_xml_declaration_encoding reference "UTF-16LE" "<" "foo/>"
           "utf-16le" Listener_new eq_refl eq_refl eq_refl eq_refl eq_refl).
Defined.

Lemma parse_xml_declaration_unknown_encoding_witness :
  contains (Ascii.eqb double_quote) "nope" = false /\
  contains (Ascii.eqb newline) "nope" = false /\
  contains (Ascii.eqb "?") "nope" = false /\
  stops (Ascii.eqb ">") "<true/>" = true /\
  Encoding_find (Some "nope") = Raise (ArgumentError "unknown encoding name") /\
  parse ("<?xml version='1.0' encoding=" ++ String double_quote "nope"
         ++ String double_quote "?>" ++ "<true/>") Listener_new =
  parse "<true/>" Listener_new.
Proof.
  repeat (split; [reflexivity|]).
  apply (@parse_xml_declaration_unknown_encoding reference "nope" "<true/>"
           "unknown encoding name" Listener_new); reflexivity.
Defined.

Lemma parse_xml_declaration_single_quotes_witness :
  contains (Ascii.eqb "'") "UTF-8" = false /\
  contains (Ascii.eqb newline) "UTF-8" = false /\
  contains (Ascii.eqb "?") "UTF-8" = false /\
  stops (Ascii.eqb ">") "<true/>" = true /\
  Encoding_find None =
  Raise (TypeError "no implicit conversion of nil into String") /\
  (forall msg,
      TypeError "no implicit conversion of nil into String"
      <> ArgumentError msg) /\
  parse "<?xml version='1.0' encoding='UTF-8'?><true/>" Listener_new =
  Some (Raise (TypeError "no implicit conversion of nil into String")).
Proof.
  repeat (split; [reflexivity|]).
  split; [discriminate|].
  apply (@parse_xml_declaration_single_quotes reference "UTF-8" "<true/>"
           (TypeError "no implicit conversion of nil into String") Listener_new);
    try reflexivity.
  discriminate.
Defined.

Lemma parse_doctype_witness :
  all_chars is_space " " = true /\
  starts_with is_space " plist PUBLIC 'a' 'b'" = true /\
  contains ends_doctype " plist PUBLIC 'a' 'b'" = false /\
  ends_doctype ">" = true /\
  parse " <!DOCTYPE plist PUBLIC 'a' 'b'><true/>" Listener_new =
  parse "<true/>" Listener_new.
Proof.
  repeat (split; [reflexivity|]).
  apply (@parse_doctype reference " " " plist PUBLIC 'a' 'b'" "<true/>" ">"
           Listener_new); reflexivity.
Defined.

Lemma parse_xml_with_prolog_witness :
  contains (Ascii.eqb "?") "version='1.0'" = false /\
  stops is_space "version='1.0'" = true /\
  after_first "encoding=" "version='1.0'" = None /\
  all_chars is_space " " = true /\
  starts_with is_space " plist SYSTEM 'p.dtd'" = true /\
  contains ends_doctype " plist SYSTEM 'p.dtd'" = false /\
  plain (Element PList [(" ", Element PArray [("", Element PTrue [] "")] "")] " ")
  = true /\
  no_lt " " = true /\ no_lt " " = true /\
  parse_xml
    "<?xml version='1.0'?> <!DOCTYPE plist SYSTEM 'p.dtd'> <plist> <array><true></true></array> </plist> "
  = Some (Return (VArray [VBool true])).
Proof.
  repeat (split; [reflexivity|]).
  apply (@parse_xml_with_prolog reference "version='1.0'" " "
           " plist SYSTEM 'p.dtd'" " " " "
           (Element PList
              [(" ", Element PArray [("", Element PTrue [] "")] "")] " "));
    reflexivity.
Defined.

Lemma PArray_to_ruby_raises_witness :
  Forall2 (fun c v => to_ruby c = Return v) [Node PTrue None []] [VBool true] /\
  to_ruby (Node PDate None []) =
  Raise (TypeError "no implicit conversion of nil into String") /\
  to_ruby (Node PArray None
             [Node PTrue None []; Node PDate None []; Node PFalse None []]) =
  Raise (TypeError "no implicit conversion of nil into String").
Proof.
  split; [repeat constructor|]. split; [reflexivity|].
  apply (@PArray_to_ruby_raises reference None [Node PTrue None []]
           [Node PFalse None []] (Node PDate None []) [VBool true]);
    [repeat constructor | reflexivity].
Defined.

Lemma PDict_to_ruby_raises_witness :
  Forall2 (fun c v => to_ruby c = Return v) [Node PKey (Some "a") []]
    [VStr "a"] /\
  to_ruby (Node PDate (Some "soon") []) = Raise (ArgumentError "invalid date") /\
  to_ruby (Node PDict None
             [Node PKey (Some "a") []; Node PDate (Some "soon") []]) =
  Raise (ArgumentError "invalid date").
Proof.
  split; [repeat constructor|]. split; [reflexivity|].
  apply (@PDict_to_ruby_raises reference None [Node PKey (Some "a") []]
           [] (Node PDate (Some "soon") []) [VStr "a"]);
    [repeat constructor | reflexivity].
Defined.

Lemma PDict_to_ruby_nil_key_witness :
  Forall (fun kv : PTag * PTag => class_of (fst kv) = PKey) [] /\
  to_ruby (Node PList None []) = Return VNil /\
  to_ruby (Node PDict None
             [Node PList None []; Node PKey (Some "a") []; Node PTrue None []]) =
  to_ruby (Node PDict None [Node PKey (Some "a") []; Node PTrue None []]).
Proof.
  split; [constructor|]. split; [reflexivity|].
  apply (@PDict_to_ruby_nil_key reference None [] (Node PList None [])
           [Node PKey (Some "a") []; Node PTrue None []]);
    [constructor | reflexivity].
Defined.
